(** * Daywise: the local formatter [localFormatToTable] of src/main.ts

    A shallow embedding of the offline log-to-table formatter and of the
    regular expressions it is built from, followed by the properties of the
    specification that concern it.

    JavaScript strings are sequences of UTF-16 code units; a code unit is a
    number of type [N] and a string is a list of them.  Every regular
    expression of the source is written out as the backtracking matcher the
    ECMAScript semantics prescribes for it: alternatives are tried in the
    order of the pattern, greedy quantifiers take the longer option first. *)

From Stdlib Require Import List NArith Bool Lia String Ascii.
Import ListNotations.
Local Open Scope N_scope.

(** ** Strings and character classes *)

Abbreviation char16 := N (only parsing).
Abbreviation jsstring := (list N) (only parsing).

(** An ASCII literal as a JavaScript string (used for ASCII text only). *)
Definition js (s : string) : jsstring := map N_of_ascii (list_ascii_of_string s).

(** U+2014 EM DASH, the absence marker of the time and activity columns,
    and U+2013 EN DASH, which joins the two ends of a range. *)
Definition EM_DASH : jsstring := [0x2014].
Definition EN_DASH : jsstring := [0x2013].

Definition LF : char16 := 10.

Definition inRange (lo hi c : char16) : bool := (lo <=? c) && (c <=? hi).

(** [\d] *)
Definition isDigit (c : char16) : bool := inRange 48 57 c.

(** [\w], that is [A-Za-z0-9_] *)
Definition isWordChar (c : char16) : bool :=
  inRange 97 122 c || inRange 65 90 c || isDigit c || (c =? 95).

(** LineTerminator: LF, CR, U+2028, U+2029.  The dot of a pattern matches
    every code unit but these. *)
Definition isLineTerminator (c : char16) : bool :=
  (c =? 10) || (c =? 13) || (c =? 0x2028) || (c =? 0x2029).

(** WhiteSpace: TAB, VT, FF, SP, NBSP, ZWNBSP and the category Zs. *)
Definition isWhiteSpace (c : char16) : bool :=
  (c =? 9) || (c =? 11) || (c =? 12) || (c =? 32) || (c =? 160) ||
  (c =? 0x1680) || inRange 0x2000 0x200A c || (c =? 0x202F) ||
  (c =? 0x205F) || (c =? 0x3000) || (c =? 0xFEFF).

(** [\s], which is also what [trim] strips. *)
Definition isSpace (c : char16) : bool := isWhiteSpace c || isLineTerminator c.

Definition isWordAt (o : option char16) : bool :=
  match o with
  | Some c => isWordChar c
  | None => false
  end.

(** [\b] at the position between [prev] (absent at the start of the input)
    and the head of [s] (absent at its end). *)
Definition wordBoundary (prev : option char16) (s : jsstring) : bool :=
  xorb (isWordAt prev) (isWordAt (hd_error s)).

Definition isEmpty (s : jsstring) : bool :=
  match s with
  | [] => true
  | _ :: _ => false
  end.

Definition orElse {A : Type} (x y : option A) : option A :=
  match x with
  | Some _ => x
  | None => y
  end.

(** ** String methods *)

Fixpoint dropWhile (p : char16 -> bool) (s : jsstring) : jsstring :=
  match s with
  | [] => []
  | c :: s' => if p c then dropWhile p s' else s
  end.

(** [s.trim()] *)
Definition trimStart (s : jsstring) : jsstring := dropWhile isSpace s.
Definition trimEnd (s : jsstring) : jsstring := rev (dropWhile isSpace (rev s)).
Definition trim (s : jsstring) : jsstring := trimEnd (trimStart s).

Fixpoint startsWith (p s : jsstring) : bool :=
  match p, s with
  | [], _ => true
  | _ :: _, [] => false
  | a :: p', b :: s' => (a =? b) && startsWith p' s'
  end.

(** [s.includes(p)] *)
Fixpoint includes (s p : jsstring) : bool :=
  startsWith p s ||
  match s with
  | [] => false
  | _ :: s' => includes s' p
  end.

(** [s.replace(p, '')] for a string pattern [p]: the first occurrence of [p]
    in [s] is removed. *)
Fixpoint replaceString (s p : jsstring) {struct s} : jsstring :=
  if startsWith p s then skipn (List.length p) s
  else match s with
       | [] => []
       | c :: s' => c :: replaceString s' p
       end.

(** [s.toLowerCase()].  ASCII capitals are lowered.  Of the code units above
    127 only U+0130 (which becomes i followed by U+0307) and U+212A (which
    becomes k) have an ASCII letter in their lower-case form, and they are
    mapped as such; every other code unit above 127 lowers to code units
    above 127 and is kept as it is, since the source only asks whether the
    lowered line includes the ASCII words till and to. *)
Definition lowerUnit (c : char16) : jsstring :=
  if inRange 65 90 c then [c + 32]
  else if c =? 0x130 then [105; 0x307]
  else if c =? 0x212A then [107]
  else [c].

Definition toLowerCase (s : jsstring) : jsstring := flat_map lowerUnit s.

(** [s.toUpperCase()], with the ASCII letters raised; its one argument in the
    source is the third capture of [timeRegex], one of am, pm, AM, PM, or
    the empty string. *)
Definition toUpperCase (s : jsstring) : jsstring :=
  map (fun c => if inRange 97 122 c then c - 32 else c) s.

(** Canonicalize of a case-insensitive pattern without the u flag, on what
    it is compared with here: the letters of a pattern are ASCII, and a code
    unit above 127 is never canonicalized to an ASCII one. *)
Definition canonicalize (c : char16) : char16 :=
  if inRange 97 122 c then c - 32 else c.

Fixpoint startsWithCI (p s : jsstring) : bool :=
  match p, s with
  | [], _ => true
  | _ :: _, [] => false
  | a :: p', b :: s' => (canonicalize a =? canonicalize b) && startsWithCI p' s'
  end.

(** ** Numbers *)

(** The numbers of [normalizeTime]: a natural number or NaN. *)
Inductive number : Type :=
  | NaN
  | Num (n : N).

Fixpoint parseDigits (acc : N) (s : jsstring) : N :=
  match s with
  | [] => acc
  | c :: s' => if isDigit c then parseDigits (10 * acc + (c - 48)) s' else acc
  end.

(** [parseInt(s, 10)] on the strings the source passes to it, the digit
    captures of [timeRegex] and the literal 0: the value of the leading
    decimal digits, NaN when there is none. *)
Definition parseInt (s : jsstring) : number :=
  match s with
  | [] => NaN
  | c :: _ => if isDigit c then Num (parseDigits 0 s) else NaN
  end.

Fixpoint digitsOfUint (u : Decimal.uint) : jsstring :=
  match u with
  | Decimal.Nil => []
  | Decimal.D0 u' => 48 :: digitsOfUint u'
  | Decimal.D1 u' => 49 :: digitsOfUint u'
  | Decimal.D2 u' => 50 :: digitsOfUint u'
  | Decimal.D3 u' => 51 :: digitsOfUint u'
  | Decimal.D4 u' => 52 :: digitsOfUint u'
  | Decimal.D5 u' => 53 :: digitsOfUint u'
  | Decimal.D6 u' => 54 :: digitsOfUint u'
  | Decimal.D7 u' => 55 :: digitsOfUint u'
  | Decimal.D8 u' => 56 :: digitsOfUint u'
  | Decimal.D9 u' => 57 :: digitsOfUint u'
  end.

(** [n.toString()], also the conversion a template literal applies. *)
Definition toString (x : number) : jsstring :=
  match x with
  | NaN => js "NaN"
  | Num n => digitsOfUint (N.to_uint n)
  end.

(** [s.padStart(2, '0')] *)
Definition padStart2 (s : jsstring) : jsstring :=
  repeat 48 (2 - List.length s)%nat ++ s.

Definition num_geb (x : number) (k : N) : bool :=
  match x with NaN => false | Num n => k <=? n end.
Definition num_leb (x : number) (k : N) : bool :=
  match x with NaN => false | Num n => n <=? k end.
Definition num_gtb (x : number) (k : N) : bool :=
  match x with NaN => false | Num n => k <? n end.
Definition num_eqb (x : number) (k : N) : bool :=
  match x with NaN => false | Num n => n =? k end.
Definition num_sub (x : number) (k : N) : number :=
  match x with NaN => NaN | Num n => Num (n - k) end.

(** ** Regular expressions *)

(** The result of [String.prototype.match] for a pattern without the g flag:
    the position of the match, the matched text and the captures, an
    absent capture being [None] (undefined). *)
Record RegExpMatch : Type := mkMatch {
  index : nat;
  m0 : jsstring;
  m1 : option jsstring;
  m2 : option jsstring;
  m3 : option jsstring
}.

(** [x ?? d] and [x || ''] on a capture. *)
Definition nullish (x : option jsstring) (d : jsstring) : jsstring :=
  match x with
  | Some s => s
  | None => d
  end.

Definition orEmpty (x : option jsstring) : jsstring :=
  match x with
  | Some s => s
  | None => []
  end.

(** Truthiness of a value of type [string | null]. *)
Definition truthy (x : option jsstring) : bool :=
  match x with
  | Some (_ :: _) => true
  | _ => false
  end.

(** *** [timeRegex = /\b(\d{1,2})(?::(\d{2}))?\s*(am|pm|AM|PM)?\b/]

    The matcher is written from the end of the pattern backwards; each stage
    returns the text it and the later stages consumed, with the captures
    met on the way. [last] is the code unit before the current position. *)

Definition isMeridiem (a b : char16) : bool :=
  ((a =? 97) || (a =? 112)) && (b =? 109) ||
  ((a =? 65) || (a =? 80)) && (b =? 77).

(** [(am|pm|AM|PM)?\b] *)
Definition re_meridiem (last : option char16) (s : jsstring)
  : option (jsstring * option jsstring) :=
  orElse
    (match s with
     | a :: b :: s' =>
         if isMeridiem a b && wordBoundary (Some b) s'
         then Some ([a; b], Some [a; b]) else None
     | _ => None
     end)
    (if wordBoundary last s then Some ([], None) else None).

(** [\s*(am|pm|AM|PM)?\b] *)
Fixpoint re_spaces (last : option char16) (s : jsstring)
  : option (jsstring * option jsstring) :=
  orElse
    (match s with
     | c :: s' =>
         if isSpace c
         then option_map (fun r => (c :: fst r, snd r)) (re_spaces (Some c) s')
         else None
     | [] => None
     end)
    (re_meridiem last s).

(** [(?::(\d{2}))?\s*(am|pm|AM|PM)?\b] *)
Definition re_minutes (last : option char16) (s : jsstring)
  : option (jsstring * option jsstring * option jsstring) :=
  orElse
    (match s with
     | c :: d1 :: d2 :: s' =>
         if (c =? 58) && isDigit d1 && isDigit d2
         then option_map (fun r => (c :: d1 :: d2 :: fst r, Some [d1; d2], snd r))
                         (re_spaces (Some d2) s')
         else None
     | _ => None
     end)
    (option_map (fun r => (fst r, None, snd r)) (re_spaces last s)).

(** [(\d{1,2})(?::(\d{2}))?\s*(am|pm|AM|PM)?\b] *)
Definition re_hour (s : jsstring)
  : option (jsstring * jsstring * option jsstring * option jsstring) :=
  match s with
  | d1 :: s1 =>
      if isDigit d1 then
        orElse
          (match s1 with
           | d2 :: s2 =>
               if isDigit d2
               then option_map
                      (fun r => (d1 :: d2 :: fst (fst r), [d1; d2], snd (fst r), snd r))
                      (re_minutes (Some d2) s2)
               else None
           | [] => None
           end)
          (option_map (fun r => (d1 :: fst (fst r), [d1], snd (fst r), snd r))
                      (re_minutes (Some d1) s1))
      else None
  | [] => None
  end.

(** The whole pattern at one position. *)
Definition timeRegex_at (prev : option char16) (s : jsstring)
  : option (jsstring * jsstring * option jsstring * option jsstring) :=
  if wordBoundary prev s then re_hour s else None.

(** The positions are tried from left to right. *)
Fixpoint timeRegex_from (i : nat) (prev : option char16) (s : jsstring)
  : option RegExpMatch :=
  match timeRegex_at prev s with
  | Some (t, g1, g2, g3) => Some (mkMatch i t (Some g1) g2 g3)
  | None =>
      match s with
      | [] => None
      | c :: s' => timeRegex_from (S i) (Some c) s'
      end
  end.

(** [s.match(timeRegex)] *)
Definition match_timeRegex (s : jsstring) : option RegExpMatch :=
  timeRegex_from 0 None s.

(** [s.replace(timeRegex, '')] *)
Definition replace_timeRegex (s : jsstring) : jsstring :=
  match match_timeRegex s with
  | Some m => firstn (index m) s ++ skipn (index m + List.length (m0 m)) s
  | None => s
  end.

(** [normalizeTime] *)
Definition normalizeTime (match_ : option RegExpMatch) : option jsstring :=
  match match_ with
  | None => None
  | Some m =>
      let hour := parseInt (nullish (m1 m) (js "0")) in
      let minute := parseInt (nullish (m2 m) (js "0")) in
      let meridiem := toUpperCase (orEmpty (m3 m)) in
      let meridiem :=
        if isEmpty meridiem
        then (if num_geb hour 7 && num_leb hour 11 then js "AM" else js "PM")
        else meridiem in
      let hour := if num_eqb hour 0 then Num 12 else hour in
      let hm := if num_gtb hour 12 then (num_sub hour 12, js "PM")
                else (hour, meridiem) in
      let mm := padStart2 (toString minute) in
      Some (toString (fst hm) ++ js ":" ++ mm ++ js " " ++ snd hm)
  end.

(** *** [/\[(.*?)\]/]

    After the opening bracket the lazy star first tries to close; failing
    that it takes one more code unit, which the dot refuses when it is a
    line terminator. *)
Fixpoint re_untilClose (s : jsstring) : option jsstring :=
  match s with
  | [] => None
  | c :: s' =>
      if c =? 93 then Some []
      else if isLineTerminator c then None
      else option_map (cons c) (re_untilClose s')
  end.

Definition durationRegex_at (s : jsstring) : option jsstring :=
  match s with
  | c :: s' => if c =? 91 then re_untilClose s' else None
  | [] => None
  end.

Fixpoint durationRegex_from (i : nat) (s : jsstring) : option RegExpMatch :=
  match durationRegex_at s with
  | Some g => Some (mkMatch i (91 :: g ++ [93]) (Some g) None None)
  | None =>
      match s with
      | [] => None
      | _ :: s' => durationRegex_from (S i) s'
      end
  end.

(** [s.match(/\[(.*?)\]/)] *)
Definition match_durationRegex (s : jsstring) : option RegExpMatch :=
  durationRegex_from 0 s.

(** *** Patterns tried at one position

    A matcher is given the code unit before the position and the text from
    the position on, and returns the length of the match there. *)
Definition matcher : Type := option char16 -> jsstring -> option nat.

(** A word of a case-insensitive alternation followed by [\b]. *)
Definition re_word (w s : jsstring) : option nat :=
  let n := List.length w in
  if startsWithCI w s && wordBoundary (nth_error s (n - 1)) (skipn n s)
  then Some n else None.

(** [/\r?\n/] *)
Definition re_newline : matcher := fun _ s =>
  match s with
  | c :: s' =>
      orElse
        (if c =? 13
         then match s' with
              | d :: _ => if d =? 10 then Some 2%nat else None
              | [] => None
              end
         else None)
        (if c =? 10 then Some 1%nat else None)
  | [] => None
  end.

(** [/\b(?:till|to)\b/i] *)
Definition re_tillTo : matcher := fun prev s =>
  if wordBoundary prev s
  then orElse (re_word (js "till") s) (re_word (js "to") s)
  else None.

(** [/\b(at|around|by)\b/i] *)
Definition re_atAroundBy : matcher := fun prev s =>
  if wordBoundary prev s
  then orElse (re_word (js "at") s)
              (orElse (re_word (js "around") s) (re_word (js "by") s))
  else None.

(** *** [s.split(re)]

    The loop of RegExp.prototype[Symbol.split]: [cur] holds, reversed, the
    text since the end of the last separator, [skip] the number of code units
    of a separator still to pass.  A match that is empty does not split at the
    position right after the previous separator, and the search goes on one
    code unit further in either case. *)
Fixpoint split_go (re : matcher) (prev : option char16) (s cur : jsstring)
  (skip : nat) : list jsstring :=
  match s with
  | [] => [rev cur]
  | c :: s' =>
      match skip with
      | S k => split_go re (Some c) s' cur k
      | O =>
          match re prev s with
          | Some (S k) => rev cur :: split_go re (Some c) s' [] k
          | Some O =>
              if isEmpty cur then split_go re (Some c) s' [c] 0
              else rev cur :: split_go re (Some c) s' [c] 0
          | None => split_go re (Some c) s' (c :: cur) 0
          end
      end
  end.

Definition split (re : matcher) (s : jsstring) : list jsstring :=
  match s with
  | [] => match re None [] with Some _ => [] | None => [[]] end
  | _ :: _ => split_go re None s [] 0
  end.

(** [a.join(sep)] *)
Fixpoint join (sep : jsstring) (a : list jsstring) : jsstring :=
  match a with
  | [] => []
  | [x] => x
  | x :: a' => x ++ sep ++ join sep a'
  end.

(** *** The replacements of the activity clean-up *)

(** [s.replace(/\b(at|around|by)\b/i, '')] *)
Fixpoint replace_atAroundBy (prev : option char16) (s : jsstring) : jsstring :=
  match re_atAroundBy prev s with
  | Some n => skipn n s
  | None =>
      match s with
      | [] => []
      | c :: s' => c :: replace_atAroundBy (Some c) s'
      end
  end.

(** [s.replace(/^-+\s*/, '')] *)
Definition replace_leadingDashes (s : jsstring) : jsstring :=
  match s with
  | c :: _ =>
      if c =? 45 then dropWhile isSpace (dropWhile (N.eqb 45) s) else s
  | [] => []
  end.

(** [s.replace(/\s{2,}/g, ' ')]: a run of two or more white-space code units
    becomes one space; [inRun] says that the run is being passed. *)
Fixpoint replace_spaceRuns (inRun : bool) (s : jsstring) : jsstring :=
  match s with
  | [] => []
  | c :: s' =>
      if inRun then
        if isSpace c then replace_spaceRuns true s'
        else c :: replace_spaceRuns false s'
      else if isSpace c && match s' with d :: _ => isSpace d | [] => false end
      then 32 :: replace_spaceRuns true s'
      else c :: replace_spaceRuns false s'
  end.

(** [s.replace(/[!]+/g, '')] *)
Definition replace_bangs (s : jsstring) : jsstring :=
  filter (fun c => negb (c =? 33)) s.

(** [/\s*-\s*$/] at one position *)
Definition re_trailingDash (s : jsstring) : bool :=
  match dropWhile isSpace s with
  | c :: r => (c =? 45) && isEmpty (dropWhile isSpace r)
  | [] => false
  end.

(** [s.replace(/\s*-\s*$/, '')] *)
Fixpoint replace_trailingDash (s : jsstring) : jsstring :=
  if re_trailingDash s then []
  else match s with
       | [] => []
       | c :: s' => c :: replace_trailingDash s'
       end.

(** ** Errors *)

(** What a run of the formatter could throw: reading a property of null. *)
Inductive JSError : Type :=
  | TypeError.

Inductive result (A : Type) : Type :=
  | Ok (a : A)
  | Throw (e : JSError).
Arguments Ok {A} a.
Arguments Throw {A} e.

Definition bind {A B : Type} (x : result A) (f : A -> result B) : result B :=
  match x with
  | Ok a => f a
  | Throw e => Throw e
  end.

Notation "x <- e1 ;; e2" := (bind e1 (fun x => e2))
  (at level 61, e1 at next level, right associativity).

(** The non-null assertion [m!] followed by a property access. *)
Definition nonNull {A : Type} (x : option A) : result A :=
  match x with
  | Some a => Ok a
  | None => Throw TypeError
  end.

(** ** The formatter *)

Record Row : Type := mkRow {
  time : jsstring;
  activity : jsstring;
  notes : jsstring
}.

(** The activity clean-up at the end of the loop body. *)
Definition cleanActivity (activity : jsstring) : jsstring :=
  trim (replace_trailingDash
         (replace_bangs
           (replace_spaceRuns false
             (replace_leadingDashes activity)))).

(** The range detection of the loop body: the new values of [time] and
    [activity]. *)
Definition detectRange (line lower time activity : jsstring)
  : jsstring * jsstring :=
  if includes lower (js "till") || includes lower (js "to") then
    match split re_tillTo line with
    | [part0; part1] =>
        let startMatch := match_timeRegex part0 in
        let endMatch := match_timeRegex part1 in
        let start := normalizeTime startMatch in
        let end_ := normalizeTime endMatch in
        if truthy start && truthy end_
        then (orEmpty start ++ EN_DASH ++ orEmpty end_,
              trim (replace_timeRegex part0))
        else (time, activity)
    | _ => (time, activity)
    end
  else (time, activity).

(** The single-time search of the loop body. *)
Definition detectSingle (line time activity : jsstring)
  : result (jsstring * jsstring) :=
  if isEmpty time then
    let m := match_timeRegex line in
    let t := normalizeTime m in
    if truthy t then
      m' <- nonNull m ;;
      Ok (orEmpty t,
          trim (replace_atAroundBy None (replaceString line (m0 m'))))
    else Ok (time, activity)
  else Ok (time, activity).

(** The body of the loop over the lines: the row pushed for [line]. *)
Definition processLine (line : jsstring) : result Row :=
  let lower := toLowerCase line in
  let time : jsstring := [] in
  let activity := line in
  let notes : jsstring := [] in
  let durationMatch := match_durationRegex line in
  let na :=
    match durationMatch with
    | Some d => (orEmpty (m1 d), trim (replaceString activity (m0 d)))
    | None => (notes, activity)
    end in
  let notes := fst na in
  let activity := snd na in
  let ta := detectRange line lower time activity in
  ta' <- detectSingle line (fst ta) (snd ta) ;;
  let time := fst ta' in
  let activity := cleanActivity (snd ta') in
  let activity := if isEmpty activity then EM_DASH else activity in
  Ok (mkRow (if isEmpty time then EM_DASH else time) activity notes).

(** The loop: each row is pushed at the end of [rows]. *)
Fixpoint forLines (lines : list jsstring) (rows : list Row)
  : result (list Row) :=
  match lines with
  | [] => Ok rows
  | line :: rest =>
      r <- processLine line ;;
      forLines rest (rows ++ [r])
  end.

Definition header : jsstring := js "| Time | Activity | Notes |".
Definition sep : jsstring := js "|---|---|---|".

(** [r.notes || '-'] *)
Definition notesCell (r : Row) : jsstring :=
  if isEmpty (notes r) then js "-" else notes r.

Definition renderRow (r : Row) : jsstring :=
  js "| " ++ time r ++ js " | " ++ activity r ++ js " | " ++
  notesCell r ++ js " |".

(** [content.split(/\r?\n/).map(l => l.trim()).filter(Boolean)] *)
Definition linesOf (content : jsstring) : list jsstring :=
  filter (fun l => negb (isEmpty l)) (map trim (split re_newline content)).

Definition localFormatToTable (content : jsstring) : result jsstring :=
  let lines := linesOf content in
  rows <- forLines lines [] ;;
  let body := join [LF] (map renderRow rows) in
  Ok (header ++ [LF] ++ sep ++ [LF] ++ body).

(** * Vocabulary of the properties *)

(** The third capture is absent or one of am, pm, AM, PM. *)
Definition meridiemCapture_ok (g : option jsstring) : bool :=
  match g with
  | None => true
  | Some [a; b] => isMeridiem a b
  | Some _ => false
  end.

(** The second capture is absent or two digits. *)
Definition minuteCapture_ok (g : option jsstring) : bool :=
  match g with
  | None => true
  | Some [d1; d2] => isDigit d1 && isDigit d2
  | Some _ => false
  end.

(** The first capture is one or two digits. *)
Definition hourCapture_ok (g : option jsstring) : bool :=
  match g with
  | Some [d1] => isDigit d1
  | Some [d1; d2] => isDigit d1 && isDigit d2
  | _ => false
  end.

(** The captures of a match have the shape the pattern gives them. *)
Definition timeMatch_ok (m : RegExpMatch) : bool :=
  hourCapture_ok (m1 m) && minuteCapture_ok (m2 m) && meridiemCapture_ok (m3 m).

(** The hour and the minute that [normalizeTime] reads from a match. *)
Definition hourOf (m : RegExpMatch) : number :=
  parseInt (nullish (m1 m) (js "0")).
Definition minuteOf (m : RegExpMatch) : number :=
  parseInt (nullish (m2 m) (js "0")).

(** The hour shown for the hour [h] read: 0 is shown as 12, an hour above 12
    is reduced by 12. *)
Definition hour12 (h : N) : N :=
  if h =? 0 then 12 else if 12 <? h then h - 12 else h.

(** The meridiem shown for the hour [h] read and the third capture. *)
Definition meridiemOf (h : N) (g3 : option jsstring) : jsstring :=
  if 12 <? h then js "PM"
  else match g3 with
       | Some g => toUpperCase g
       | None => if (7 <=? h) && (h <=? 11) then js "AM" else js "PM"
       end.

(** The canonical string [H:MM MERIDIEM]. *)
Definition fmtTime (h mi : N) (mer : jsstring) : jsstring :=
  toString (Num h) ++ js ":" ++ padStart2 (toString (Num mi)) ++ js " " ++ mer.

(** The ten digits, and with them every capture a match can hold. *)
Definition digitUnits : list N := [48; 49; 50; 51; 52; 53; 54; 55; 56; 57].

Definition twoDigits : list (option jsstring) :=
  map (fun p => Some [fst p; snd p]) (list_prod digitUnits digitUnits).

Definition hourCaptures : list (option jsstring) :=
  map (fun d => Some [d]) digitUnits ++ twoDigits.

Definition minuteCaptures : list (option jsstring) := None :: twoDigits.

Definition meridiemCaptures : list (option jsstring) :=
  [None; Some (js "am"); Some (js "pm"); Some (js "AM"); Some (js "PM")].

(** Equality of strings, decided. *)
Fixpoint str_eqb (a b : jsstring) : bool :=
  match a, b with
  | [], [] => true
  | x :: a', y :: b' => (x =? y) && str_eqb a' b'
  | _, _ => false
  end.

(** A match with the given captures; [normalizeTime] reads nothing else. *)
Definition ofCaptures (g1 g2 g3 : option jsstring) : RegExpMatch :=
  mkMatch 0 [] g1 g2 g3.

(** The canonical string [t] is matched again as a whole. *)
Definition rematchesWhole (t : jsstring) : bool :=
  match match_timeRegex t with
  | Some m' => Nat.eqb (index m') 0 && str_eqb (m0 m') t
  | None => false
  end.

(** Normalizing the match of [t] gives [t] back. *)
Definition renormalizes (t : jsstring) : bool :=
  match normalizeTime (match_timeRegex t) with
  | Some t' => str_eqb t' t
  | None => false
  end.

(** For the captures given: the canonical string is matched again as a
    whole, and it is normalized to itself exactly when the hour read is at
    most 24. *)
Definition idempotent_check (g1 g2 g3 : option jsstring) : bool :=
  let m := ofCaptures g1 g2 g3 in
  match normalizeTime (Some m) with
  | Some t =>
      rematchesWhole t && Bool.eqb (renormalizes t) (num_leb (hourOf m) 24)
  | None => false
  end.

(** The working text of a line: the value of [activity] after the first
    step of the loop body, the line without its bracketed fragment. *)
Definition workingText (line : jsstring) : jsstring :=
  match match_durationRegex line with
  | Some d => trim (replaceString line (m0 d))
  | None => line
  end.

(** The notes of a line: the text between the brackets, if any. *)
Definition notesOf (line : jsstring) : jsstring :=
  match match_durationRegex line with
  | Some d => orEmpty (m1 d)
  | None => []
  end.

(** The absence marker in place of an empty string. *)
Definition orDash (s : jsstring) : jsstring :=
  if isEmpty s then EM_DASH else s.

(** How the row of a line comes about: from a range whose two parts hold a
    time, from a single time found in the line, or without a time. *)
Inductive outcome (line : jsstring) : Row -> Prop :=
  | RangeRow part0 part1 ms me start end_ :
      split re_tillTo line = [part0; part1] ->
      match_timeRegex part0 = Some ms ->
      match_timeRegex part1 = Some me ->
      normalizeTime (Some ms) = Some start ->
      normalizeTime (Some me) = Some end_ ->
      outcome line
        (mkRow (start ++ EN_DASH ++ end_)
               (orDash (cleanActivity (trim (replace_timeRegex part0))))
               (notesOf line))
  | SingleRow m t :
      match_timeRegex line = Some m ->
      normalizeTime (Some m) = Some t ->
      outcome line
        (mkRow t
               (orDash (cleanActivity
                  (trim (replace_atAroundBy None (replaceString line (m0 m))))))
               (notesOf line))
  | NoTimeRow :
      match_timeRegex line = None ->
      outcome line
        (mkRow EM_DASH (orDash (cleanActivity (workingText line))) (notesOf line)).

(** [t] is a canonical time: an hour from 1 to [hmax], a colon, the two
    digits of a minute up to [mmax], a space and AM or PM. *)
Definition canonicalTime (hmax mmax : N) (t : jsstring) : Prop :=
  exists h mi mer,
    t = toString (Num h) ++ js ":" ++ [48 + mi / 10; 48 + mi mod 10] ++
        js " " ++ mer /\
    1 <= h <= hmax /\ mi <= mmax /\ (mer = js "AM" \/ mer = js "PM").

(** A time field: the absence marker, a canonical time, or two canonical
    times joined by an en dash. *)
Definition timeField (hmax mmax : N) (t : jsstring) : Prop :=
  t = EM_DASH \/
  canonicalTime hmax mmax t \/
  exists a b, t = a ++ EN_DASH ++ b /\
              canonicalTime hmax mmax a /\ canonicalTime hmax mmax b.

(** The numbers from 0 to 99. *)
Definition upTo99 : list N := map N.of_nat (seq 0 100).

(** Whether a matcher succeeded. *)
Definition matched {A : Type} (o : option A) : bool :=
  match o with
  | Some _ => true
  | None => false
  end.

(** The code unit before the end of [a], which follows [prev]. *)
Fixpoint lastUnit (prev : option N) (a : jsstring) : option N :=
  match a with
  | [] => prev
  | c :: a' => lastUnit (Some c) a'
  end.

(** A number of one or two digits that stands alone between [pre] and
    [post]: no word character before it or after it. *)
Definition standaloneNumber (pre d post : jsstring) : Prop :=
  isWordAt (lastUnit None pre) = false /\
  (List.length d = 1%nat \/ List.length d = 2%nat) /\
  forallb isDigit d = true /\
  isWordAt (hd_error post) = false.

(** A string without a line feed. *)
Definition noLF (s : jsstring) : Prop := ~ In LF s.

(** A row whose three cells are not empty and whose rendering holds no
    line feed.  (This says nothing yet of the number of cells: see
    [threeColumns].) *)
Definition filledRow (r : Row) : Prop :=
  time r <> [] /\ activity r <> [] /\ notesCell r <> [] /\
  noLF (renderRow r).

(** The lines of the input that are not blank once trimmed. *)
Definition countNonBlank (content : jsstring) : nat :=
  List.length (filter (fun l => negb (isEmpty (trim l)))
                      (split re_newline content)).

(** The table read back line by line: [out.split('\n')]. *)
Fixpoint splitLF (s cur : jsstring) : list jsstring :=
  match s with
  | [] => [rev cur]
  | c :: s' =>
      if c =? LF then rev cur :: splitLF s' [] else splitLF s' (c :: cur)
  end.

Definition tableLines (out : jsstring) : list jsstring := splitLF out [].

(** The body rows of a table: its lines after the header and the
    separator, the empty line that ends a table without rows left out. *)
Definition bodyRows (out : jsstring) : list jsstring :=
  filter (fun l => negb (isEmpty l)) (skipn 2 (tableLines out)).

(** ** Vocabulary of the table *)

(** The pieces of a string between the occurrences of the code unit [u]. *)
Fixpoint splitUnit (u : char16) (s cur : jsstring) : list jsstring :=
  match s with
  | [] => [rev cur]
  | c :: s' =>
      if c =? u then rev cur :: splitUnit u s' [] else splitUnit u s' (c :: cur)
  end.

(** A code unit that ends a cell or a line of a table: the pipe and the
    line terminators LF, CR, U+2028 and U+2029. *)
Definition cellBreaker (c : char16) : bool := (c =? 124) || isLineTerminator c.

(** A line that holds no such code unit. *)
Definition plainLine (line : jsstring) : bool :=
  forallb (fun c => negb (cellBreaker c)) line.

(** [row] is a table row of exactly the three cells [t], [a] and [n]: cut at
    its pipes it is the empty string, the three cells each between two
    spaces, and the empty string again; and it holds no line terminator. *)
Definition threeColumns (row t a n : jsstring) : Prop :=
  splitUnit 124 row [] =
    [[]; js " " ++ t ++ js " "; js " " ++ a ++ js " "; js " " ++ n ++ js " "; []] /\
  forallb (fun c => negb (isLineTerminator c)) row = true.

(** A well-formed row of three columns: three cells that are not empty. *)
Definition threeColumnRow (row : jsstring) : Prop :=
  exists t a n, t <> [] /\ a <> [] /\ n <> [] /\ threeColumns row t a n.

(** A well-formed three-column table: the header line, the separator line,
    and body rows that are each a well-formed row of three columns. *)
Definition wellFormedTable (out : jsstring) : Prop :=
  firstn 2 (tableLines out) = [header; sep] /\
  Forall threeColumnRow (bodyRows out).

(** A line that is not blank: not all of it is white space. *)
Definition nonBlank (l : jsstring) : bool := negb (forallb isSpace l).

(** * The remote provider and the command *)

(** ** Settings and the prompt *)

Inductive Provider : Type :=
  | gemini
  | local.

Record DailySummarySettings : Type := mkSettings {
  apiKey : jsstring;
  model : jsstring;
  addHeader : bool;
  provider : Provider
}.

Definition DEFAULT_SETTINGS : DailySummarySettings :=
  mkSettings [] (js "gemini-1.5-flash") true local.

Definition buildPrompt (content : jsstring) : jsstring :=
  join [LF]
    [ js "You are a helpful assistant that restructures daily activity logs.";
      js "Convert the following freeform day log into a concise Markdown table.";
      js "Columns: Time, Activity, Notes.";
      js "Follow rules:";
      js "- Normalize times (e.g., 7:30 -> 7:30 AM).";
      js "- For ranges, infer start" ++ EN_DASH ++ js "end when possible.";
      js "- Keep notes short and remove exclamations/emojis unless meaningful.";
      js "- Output ONLY a Markdown table, no extra text before/after.";
      [];
      content ].

(** ** Promises and parsed JSON *)

(** A promise once settled: fulfilled with a value, or rejected with an
    error, of which the source reads the message only. *)
Inductive settled (A : Type) : Type :=
  | Fulfilled (a : A)
  | Rejected (message : jsstring).
Arguments Fulfilled {A} a.
Arguments Rejected {A} message.

(** A value returned by [res.json()].  A number is held as the string that
    ToString gives for it: the source only tests a number for truth (it is
    false when it is 0, shown as 0) and puts it in a string. *)
#[warnings="-register-all"]
Inductive json : Type :=
  | JNull
  | JBool (b : bool)
  | JNumber (shown : jsstring)
  | JString (s : jsstring)
  | JArray (items : list json)
  | JObject (fields : list (jsstring * json)).

(** The value of a field of a parsed object; of two fields of the same name
    the later one is kept by the parser. *)
Definition getField (fields : list (jsstring * json)) (key : jsstring)
  : option json :=
  fold_left
    (fun acc kv => if str_eqb (fst kv) key then Some (snd kv) else acc)
    fields None.

(** Reading the property [key] of a value that is neither null nor
    undefined, for the keys the source reads (promptFeedback, blockReason,
    candidates, 0, content, parts, text): an object has its fields, an array
    and a string have an element 0 when they are not empty, and no other
    value has any of them.  [None] is undefined. *)
Definition get (j : json) (key : jsstring) : option json :=
  match j with
  | JObject fields => getField fields key
  | JArray items => if str_eqb key (js "0") then hd_error items else None
  | JString s =>
      if str_eqb key (js "0")
      then match s with
           | c :: _ => Some (JString [c])
           | [] => None
           end
      else None
  | _ => None
  end.

(** [x?.key] and [x?.[0]] *)
Definition optGet (x : option json) (key : jsstring) : option json :=
  match x with
  | None => None
  | Some JNull => None
  | Some j => get j key
  end.

(** Truth of a value. *)
Definition truthyJ (x : option json) : bool :=
  match x with
  | None => false
  | Some JNull => false
  | Some (JBool b) => b
  | Some (JNumber n) => negb (str_eqb n (js "0"))
  | Some (JString s) => negb (isEmpty s)
  | Some (JArray _) => true
  | Some (JObject _) => true
  end.

(** ToString of a value, as a template literal and [join] apply it; the
    elements of an array are joined by commas, null ones as empty strings. *)
Fixpoint toStringJ (j : json) : jsstring :=
  match j with
  | JNull => js "null"
  | JBool true => js "true"
  | JBool false => js "false"
  | JNumber n => n
  | JString s => s
  | JArray items =>
      join (js ",")
        (map (fun e => match e with JNull => [] | _ => toStringJ e end) items)
  | JObject _ => js "[object Object]"
  end.

(** What [join] makes of [p?.text ?? '']. *)
Definition partText (p : json) : jsstring :=
  match optGet (Some p) (js "text") with
  | None => []
  | Some JNull => []
  | Some v => toStringJ v
  end.

(** The part of [queryGemini] that follows [res.json()]. *)
Definition readData (data : json) : settled jsstring :=
  let blockReason :=
    optGet (optGet (Some data) (js "promptFeedback")) (js "blockReason") in
  if truthyJ blockReason then
    Rejected (js "Blocked: " ++
              match blockReason with Some v => toStringJ v | None => [] end)
  else
    let parts :=
      optGet (optGet (optGet (optGet (Some data) (js "candidates")) (js "0"))
                     (js "content")) (js "parts") in
    match parts with
    | Some (JArray (p :: ps)) =>
        let text := trim (join [] (map partText (p :: ps))) in
        if isEmpty text then Rejected (js "Empty text result")
        else Fulfilled text
    | _ => Rejected (js "No content returned")
    end.

(** ** [encodeURIComponent] *)

(** The code units left as they are: letters, digits and - _ . ! ~ * ' ( ). *)
Definition isUnreserved (c : char16) : bool :=
  inRange 97 122 c || inRange 65 90 c || isDigit c ||
  (c =? 45) || (c =? 95) || (c =? 46) || (c =? 33) || (c =? 126) ||
  (c =? 42) || (c =? 39) || (c =? 40) || (c =? 41).

Definition hexDigit (n : N) : char16 := if n <? 10 then 48 + n else 55 + n.

(** An octet as a percent sign and two capital hexadecimal digits. *)
Definition percent (b : N) : jsstring := [37; hexDigit (b / 16); hexDigit (b mod 16)].

(** The octets of the UTF-8 form of a code point. *)
Definition utf8 (cp : N) : list N :=
  if cp <? 0x80 then [cp]
  else if cp <? 0x800 then [0xC0 + cp / 64; 0x80 + cp mod 64]
  else if cp <? 0x10000
  then [0xE0 + cp / 4096; 0x80 + (cp / 64) mod 64; 0x80 + cp mod 64]
  else [0xF0 + cp / 262144; 0x80 + (cp / 4096) mod 64;
        0x80 + (cp / 64) mod 64; 0x80 + cp mod 64].

(** [encodeURIComponent(s)]; [None] is the URIError thrown for a surrogate
    that has no partner. *)
Fixpoint encodeURIComponent (s : jsstring) : option jsstring :=
  match s with
  | [] => Some []
  | c :: rest =>
      if isUnreserved c then option_map (cons c) (encodeURIComponent rest)
      else if inRange 0xDC00 0xDFFF c then None
      else if inRange 0xD800 0xDBFF c then
        match rest with
        | d :: rest' =>
            if inRange 0xDC00 0xDFFF d
            then option_map
                   (app (flat_map percent
                           (utf8 (0x10000 + (c - 0xD800) * 0x400 + (d - 0xDC00)))))
                   (encodeURIComponent rest')
            else None
        | [] => None
        end
      else option_map (app (flat_map percent (utf8 c)))
                      (encodeURIComponent rest)
  end.

(** ** The network *)

Record Request : Type := mkRequest {
  url : jsstring;
  prompt : jsstring
}.

(** What [fetch] comes to: it is rejected (no network, or the abort after
    30 s), or there is a response with a status, whose text and whose parsed
    body are promises of their own. *)
Inductive FetchResult : Type :=
  | FetchFailed (message : jsstring)
  | Response (status : N) (text : settled jsstring) (body : settled json).

(** [res.ok] *)
Definition ok (status : N) : bool := inRange 200 299 status.

(** What the code runs in: the answer of the server to the request number
    [n], and the messages of the errors that the engine itself throws. *)
Record Host : Type := mkHost {
  server : nat -> Request -> FetchResult;
  uriErrorMessage : jsstring;
  errorMessage : JSError -> jsstring
}.

(** What has happened on the network so far: the requests sent and the
    delays waited, latest last. *)
Record Net : Type := mkNet {
  fetched : list Request;
  slept : list N
}.

Definition missingKeyMessage : jsstring :=
  js "Missing Gemini API key. Set it in Settings " ++ [0x2192] ++
  js " Daily Summary (Gemini).".

Definition endpointOf (model key : jsstring) : jsstring :=
  js "https://generativelanguage.googleapis.com/v1/models/" ++ model ++
  js ":generateContent?key=" ++ key.

Definition queryGemini (h : Host) (settings : DailySummarySettings)
  (prompt : jsstring) (net : Net) : settled jsstring * Net :=
  let apiKey := trim (apiKey settings) in
  if isEmpty apiKey then (Rejected missingKeyMessage, net)
  else
    match encodeURIComponent apiKey with
    | None => (Rejected (uriErrorMessage h), net)
    | Some key =>
        let req := mkRequest (endpointOf (model settings) key) prompt in
        let net' := mkNet (fetched net ++ [req]) (slept net) in
        match server h (List.length (fetched net)) req with
        | FetchFailed message => (Rejected message, net')
        | Response status text body =>
            if negb (ok status) then
              match text with
              | Fulfilled t =>
                  (Rejected (js "HTTP " ++ toString (Num status) ++ js ": " ++ t),
                   net')
              | Rejected message => (Rejected message, net')
              end
            else
              match body with
              | Fulfilled data => (readData data, net')
              | Rejected message => (Rejected message, net')
              end
        end
    end.

(** [HTTP\s+ddd] at one position, for the three digits [code] *)
Definition re_httpStatus (code s : jsstring) : bool :=
  startsWithCI (js "HTTP") s &&
  match skipn 4 s with
  | c :: r => isSpace c && startsWith code (dropWhile isSpace r)
  | [] => false
  end.

(** [/HTTP\s+429|HTTP\s+503/i.test(message)] *)
Fixpoint test_transient (message : jsstring) : bool :=
  re_httpStatus (js "429") message || re_httpStatus (js "503") message ||
  match message with
  | [] => false
  | _ :: rest => test_transient rest
  end.

(** The loop of [queryGeminiWithRetry], [left] attempts being left: the
    attempt number of the source is 4 - [left], so that attempt < 3 reads
    1 < left, and the loop is left when [left] is 0. *)
Fixpoint retryLoop (h : Host) (settings : DailySummarySettings)
  (prompt : jsstring) (left : nat) (delay : N) (net : Net)
  : settled jsstring * Net :=
  match left with
  | O => (Rejected (js "Retry failed"), net)
  | S left' =>
      match queryGemini h settings prompt net with
      | (Fulfilled t, net') => (Fulfilled t, net')
      | (Rejected message, net') =>
          if test_transient message && Nat.ltb 1 left
          then retryLoop h settings prompt left' (delay * 2)
                 (mkNet (fetched net') (slept net' ++ [delay]))
          else (Rejected message, net')
      end
  end.

Definition queryGeminiWithRetry (h : Host) (settings : DailySummarySettings)
  (prompt : jsstring) (net : Net) : settled jsstring * Net :=
  retryLoop h settings prompt 3 500 net.

(** ** The command *)

(** The note that is open, if any: [view] is null or has a [file], which is
    null or a file of the vault; the vault gives each file its text. *)
Record MarkdownView : Type := mkView {
  file : option nat
}.

Record App : Type := mkApp {
  activeView : option MarkdownView;
  vault : nat -> jsstring
}.

(** [app.vault.modify(file, data)] *)
Definition modify (app : App) (f : nat) (data : jsstring) : App :=
  mkApp (activeView app) (fun g => if Nat.eqb g f then data else vault app g).

Definition summaryHeader (addHeader : bool) : jsstring :=
  if addHeader
  then [LF; LF] ++ js "---" ++ [LF] ++ js "### " ++ [0xD83E; 0xDDFE] ++
       js " Daily Summary" ++ [LF]
  else [LF; LF].

(** The try block of [generateSummary]. *)
Definition summarize (h : Host) (settings : DailySummarySettings)
  (originalContent : jsstring) (net : Net) : settled jsstring * Net :=
  match provider settings, isEmpty (trim (apiKey settings)) with
  | gemini, false =>
      let prompt := buildPrompt originalContent in
      queryGeminiWithRetry h settings prompt net
  | _, _ =>
      match localFormatToTable originalContent with
      | Ok summary => (Fulfilled summary, net)
      | Throw e => (Rejected (errorMessage h e), net)
      end
  end.

(** [generateSummary]: the notices shown, the application and the network
    afterwards. *)
Definition generateSummary (h : Host) (settings : DailySummarySettings)
  (app : App) (net : Net) : list jsstring * App * Net :=
  match activeView app with
  | None => ([js "No active Markdown note"], app, net)
  | Some view =>
      match file view with
      | None => ([js "No active file"], app, net)
      | Some f =>
          let originalContent := vault app f in
          if isEmpty originalContent ||
             Nat.eqb (List.length (trim originalContent)) 0
          then ([js "Note is empty"], app, net)
          else
            match summarize h settings originalContent net with
            | (Rejected message, net') =>
                ([js "Summary failed: " ++ message], app, net')
            | (Fulfilled summary, net') =>
                let header := summaryHeader (addHeader settings) in
                let updated := originalContent ++ header ++ summary in
                (([js "Daily summary inserted"], modify app f updated), net')
            end
      end
  end.

(** ** Vocabulary of the remote provider *)

(** The delays waited before [k] further attempts, the first being [d]. *)
Fixpoint delays (k : nat) (d : N) : list N :=
  match k with
  | O => []
  | S k' => d :: delays k' (d * 2)
  end.

(** A body as the API sends it: one candidate, whose content has one part
    with the text [t]. *)
Definition answerOf (t : jsstring) : json :=
  JObject
    [(js "candidates",
      JArray
        [JObject
           [(js "content",
             JObject [(js "parts", JArray [JObject [(js "text", JString t)]])])]])].

(** A body with one candidate whose content has a part for each of the
    texts [ts]. *)
Definition answerParts (ts : list jsstring) : json :=
  JObject
    [(js "candidates",
      JArray
        [JObject
           [(js "content",
             JObject
               [(js "parts",
                 JArray (map (fun t => JObject [(js "text", JString t)]) ts))])]])].

(** A host whose server gives the same answer to every request. *)
Definition hostOf (answer : FetchResult) : Host :=
  mkHost (fun _ _ => answer) (js "URI malformed") (fun _ => js "TypeError").

(** Settings for the remote provider with the key [key]. *)
Definition keyed (key : jsstring) : DailySummarySettings :=
  mkSettings key (js "gemini-1.5-flash") true gemini.

(** * Properties *)

(** ** Shape of a match of [timeRegex] *)

Lemma orElse_Some {A : Type} (x y : option A) (r : A) :
  orElse x y = Some r -> x = Some r \/ (x = None /\ y = Some r).
Proof.
  destruct x; simpl; intros H; [left | right]; auto.
Qed.

Lemma option_map_Some {A B : Type} (f : A -> B) (x : option A) (b : B) :
  option_map f x = Some b -> exists a, x = Some a /\ b = f a.
Proof.
  destruct x; simpl; intros H; inversion H; eauto.
Qed.

Lemma re_meridiem_capture last s t g :
  re_meridiem last s = Some (t, g) -> meridiemCapture_ok g = true.
Proof.
  unfold re_meridiem. intros H. apply orElse_Some in H.
  destruct H as [H | [_ H]].
  - destruct s as [|a [|b s']]; try discriminate.
    destruct (isMeridiem a b) eqn:E; simpl in H; try discriminate.
    destruct (wordBoundary (Some b) s'); inversion H; subst. exact E.
  - destruct (wordBoundary last s); inversion H; reflexivity.
Qed.

Lemma re_spaces_eq last s :
  re_spaces last s =
  orElse
    (match s with
     | c :: s' =>
         if isSpace c
         then option_map (fun r => (c :: fst r, snd r)) (re_spaces (Some c) s')
         else None
     | [] => None
     end)
    (re_meridiem last s).
Proof. destruct s; reflexivity. Qed.

Lemma re_spaces_capture s : forall last t g,
  re_spaces last s = Some (t, g) -> meridiemCapture_ok g = true.
Proof.
  induction s as [|c s' IH]; intros last t g H; rewrite re_spaces_eq in H;
    apply orElse_Some in H; destruct H as [H | [_ H]];
    try discriminate; eauto using re_meridiem_capture.
  destruct (isSpace c); try discriminate.
  apply option_map_Some in H. destruct H as [[t' g'] [H E]].
  inversion E; subst. simpl. eauto.
Qed.

Lemma re_minutes_capture last s t g2 g3 :
  re_minutes last s = Some (t, g2, g3) ->
  minuteCapture_ok g2 = true /\ meridiemCapture_ok g3 = true.
Proof.
  unfold re_minutes. intros H. apply orElse_Some in H.
  destruct H as [H | [_ H]].
  - destruct s as [|c [|d1 [|d2 s']]]; try discriminate.
    destruct ((c =? 58) && isDigit d1 && isDigit d2) eqn:E; try discriminate.
    apply option_map_Some in H. destruct H as [[t' g'] [H E']].
    inversion E'; subst. simpl.
    apply andb_prop in E. destruct E as [E E2].
    apply andb_prop in E. destruct E as [_ E1].
    rewrite E1, E2. split; [reflexivity | eauto using re_spaces_capture].
  - apply option_map_Some in H. destruct H as [[t' g'] [H E']].
    inversion E'; subst. split; [reflexivity | eauto using re_spaces_capture].
Qed.

Lemma re_hour_capture s t g1 g2 g3 :
  re_hour s = Some (t, g1, g2, g3) ->
  hourCapture_ok (Some g1) = true /\
  minuteCapture_ok g2 = true /\ meridiemCapture_ok g3 = true.
Proof.
  unfold re_hour. destruct s as [|d1 s1]; try discriminate.
  destruct (isDigit d1) eqn:E1; try discriminate.
  intros H. apply orElse_Some in H. destruct H as [H | [_ H]].
  - destruct s1 as [|d2 s2]; try discriminate.
    destruct (isDigit d2) eqn:E2; try discriminate.
    apply option_map_Some in H. destruct H as [[[t' g2'] g3'] [H E']].
    inversion E'; subst. simpl. rewrite E1, E2.
    split; [reflexivity | eauto using re_minutes_capture].
  - apply option_map_Some in H. destruct H as [[[t' g2'] g3'] [H E']].
    inversion E'; subst. simpl. rewrite E1.
    split; [reflexivity | eauto using re_minutes_capture].
Qed.

Lemma timeRegex_from_ok s : forall i prev m,
  timeRegex_from i prev s = Some m -> timeMatch_ok m = true.
Proof.
  induction s as [|c s' IH]; intros i prev m H; simpl in H.
  - destruct (timeRegex_at prev []) as [[[[t g1] g2] g3]|] eqn:E;
      try discriminate.
    unfold timeRegex_at in E. destruct (wordBoundary prev []); discriminate.
  - destruct (timeRegex_at prev (c :: s')) as [[[[t g1] g2] g3]|] eqn:E.
    + inversion H; subst. unfold timeRegex_at in E.
      destruct (wordBoundary prev (c :: s')); try discriminate.
      apply re_hour_capture in E. destruct E as [E1 [E2 E3]].
      unfold timeMatch_ok. simpl. simpl in E1. rewrite E1, E2, E3. reflexivity.
    + eauto.
Qed.

Lemma match_timeRegex_ok s m :
  match_timeRegex s = Some m -> timeMatch_ok m = true.
Proof. apply timeRegex_from_ok. Qed.

(** ** [normalizeTime] in closed form *)

Lemma isDigit_bounds c : isDigit c = true -> 48 <= c <= 57.
Proof.
  unfold isDigit, inRange. intros H. apply andb_prop in H.
  destruct H as [H1 H2]. apply N.leb_le in H1. apply N.leb_le in H2. lia.
Qed.

Lemma hourOf_Num m :
  hourCapture_ok (m1 m) = true -> exists h, hourOf m = Num h /\ h <= 99.
Proof.
  unfold hourOf, parseInt, hourCapture_ok.
  destruct (m1 m) as [[|d1 [|d2 [|]]]|]; cbn [nullish parseDigits];
    try discriminate.
  - intros E. rewrite E. eexists; split; [reflexivity|].
    apply isDigit_bounds in E. lia.
  - intros E. apply andb_prop in E. destruct E as [E1 E2]. rewrite E1, E2.
    eexists; split; [reflexivity|].
    apply isDigit_bounds in E1. apply isDigit_bounds in E2. lia.
Qed.

Lemma minuteOf_Num m :
  minuteCapture_ok (m2 m) = true ->
  exists mi, minuteOf m = Num mi /\ mi <= 99 /\ (m2 m = None -> mi = 0).
Proof.
  unfold minuteOf, parseInt, minuteCapture_ok.
  destruct (m2 m) as [[|d1 [|d2 [|]]]|]; cbn [nullish parseDigits];
    try discriminate.
  - intros E. apply andb_prop in E. destruct E as [E1 E2]. rewrite E1, E2.
    eexists; split; [reflexivity|]. split; [|discriminate].
    apply isDigit_bounds in E1. apply isDigit_bounds in E2. lia.
  - intros _. exists 0. repeat split. lia.
Qed.

Lemma meridiemCapture_cases g :
  meridiemCapture_ok g = true ->
  g = None \/ g = Some (js "am") \/ g = Some (js "pm") \/
  g = Some (js "AM") \/ g = Some (js "PM").
Proof.
  destruct g as [[|a [|b [|]]]|]; simpl; try discriminate; auto.
  unfold isMeridiem. intros H. right.
  apply orb_prop in H. destruct H as [H | H];
    apply andb_prop in H; destruct H as [Ha Hb];
    apply N.eqb_eq in Hb; subst b;
    apply orb_prop in Ha; destruct Ha as [Ha | Ha];
    apply N.eqb_eq in Ha; subst a; auto.
Qed.

Lemma normalizeTime_Num m h mi :
  hourOf m = Num h -> minuteOf m = Num mi ->
  meridiemCapture_ok (m3 m) = true ->
  normalizeTime (Some m) = Some (fmtTime (hour12 h) mi (meridiemOf h (m3 m))).
Proof.
  intros Hh Hm Hg. unfold normalizeTime. fold (hourOf m). fold (minuteOf m).
  rewrite Hh, Hm. unfold fmtTime, hour12, meridiemOf. cbn [num_eqb num_geb num_leb].
  apply meridiemCapture_cases in Hg.
  destruct (h =? 0) eqn:E0.
  - apply N.eqb_eq in E0. subst h.
    destruct Hg as [Hg | [Hg | [Hg | [Hg | Hg]]]]; rewrite Hg; reflexivity.
  - cbn [num_gtb]. destruct (12 <? h) eqn:E12.
    + reflexivity.
    + destruct Hg as [Hg | [Hg | [Hg | [Hg | Hg]]]]; rewrite Hg; reflexivity.
Qed.

(** Every match of [timeRegex] is normalized to a canonical string, computed
    from an hour and a minute below 100. *)
Lemma normalizeTime_closed m :
  timeMatch_ok m = true ->
  exists h mi,
    hourOf m = Num h /\ h <= 99 /\
    minuteOf m = Num mi /\ mi <= 99 /\ (m2 m = None -> mi = 0) /\
    normalizeTime (Some m) = Some (fmtTime (hour12 h) mi (meridiemOf h (m3 m))).
Proof.
  unfold timeMatch_ok. intros H.
  apply andb_prop in H. destruct H as [H H3].
  apply andb_prop in H. destruct H as [H1 H2].
  destruct (hourOf_Num m H1) as [h [Hh Hb]].
  destruct (minuteOf_Num m H2) as [mi [Hm [Hmb Hm0]]].
  exists h, mi. repeat split; auto using normalizeTime_Num.
Qed.

(** ** The finitely many captures *)

Lemma isDigit_In c : isDigit c = true -> In c digitUnits.
Proof.
  intros H. apply isDigit_bounds in H.
  assert (E : c = 48 \/ c = 49 \/ c = 50 \/ c = 51 \/ c = 52 \/
              c = 53 \/ c = 54 \/ c = 55 \/ c = 56 \/ c = 57) by lia.
  unfold digitUnits. simpl. intuition.
Qed.

Lemma twoDigits_In d1 d2 :
  isDigit d1 = true -> isDigit d2 = true -> In (Some [d1; d2]) twoDigits.
Proof.
  intros H1 H2. unfold twoDigits.
  apply (in_map (fun p => Some [fst p; snd p]) _ (d1, d2)).
  apply in_prod; auto using isDigit_In.
Qed.

Lemma hourCapture_In g : hourCapture_ok g = true -> In g hourCaptures.
Proof.
  unfold hourCaptures, hourCapture_ok.
  destruct g as [[|d1 [|d2 [|]]]|]; try discriminate; intros H; apply in_or_app.
  - left. apply (in_map (fun d => Some [d])). auto using isDigit_In.
  - right. apply andb_prop in H. destruct H. auto using twoDigits_In.
Qed.

Lemma minuteCapture_In g : minuteCapture_ok g = true -> In g minuteCaptures.
Proof.
  unfold minuteCaptures, minuteCapture_ok.
  destruct g as [[|d1 [|d2 [|]]]|]; try discriminate; intros H.
  - right. apply andb_prop in H. destruct H. auto using twoDigits_In.
  - left. reflexivity.
Qed.

Lemma meridiemCapture_In g : meridiemCapture_ok g = true -> In g meridiemCaptures.
Proof.
  intros H. apply meridiemCapture_cases in H. unfold meridiemCaptures. simpl.
  intuition.
Qed.

(** A property of the captures that holds of each of the finitely many
    triples holds of every match. *)
Lemma forall_captures (P : option jsstring -> option jsstring -> option jsstring -> bool) :
  forallb (fun g1 => forallb (fun g2 => forallb (P g1 g2) meridiemCaptures)
                             minuteCaptures) hourCaptures = true ->
  forall m, timeMatch_ok m = true -> P (m1 m) (m2 m) (m3 m) = true.
Proof.
  intros H m Hm. unfold timeMatch_ok in Hm.
  apply andb_prop in Hm. destruct Hm as [Hm H3].
  apply andb_prop in Hm. destruct Hm as [H1 H2].
  rewrite forallb_forall in H. specialize (H _ (hourCapture_In _ H1)).
  rewrite forallb_forall in H. specialize (H _ (minuteCapture_In _ H2)).
  rewrite forallb_forall in H. exact (H _ (meridiemCapture_In _ H3)).
Qed.

Lemma str_eqb_eq a : forall b, str_eqb a b = true <-> a = b.
Proof.
  induction a as [|x a IH]; intros [|y b]; simpl; split; intros H;
    try discriminate; try reflexivity.
  - apply andb_prop in H. destruct H as [H1 H2].
    apply N.eqb_eq in H1. apply IH in H2. congruence.
  - inversion H; subst. rewrite N.eqb_refl. simpl. apply IH. reflexivity.
Qed.

Lemma normalizeTime_captures m :
  normalizeTime (Some m) = normalizeTime (Some (ofCaptures (m1 m) (m2 m) (m3 m))).
Proof. reflexivity. Qed.

(** ** Normalizing a canonical string again *)

Lemma idempotent_check_all :
  forallb (fun g1 => forallb (fun g2 => forallb (idempotent_check g1 g2)
                                                meridiemCaptures)
                             minuteCaptures) hourCaptures = true.
Proof. vm_compute. reflexivity. Qed.

Lemma renormalizes_true t :
  renormalizes t = true <-> normalizeTime (match_timeRegex t) = Some t.
Proof.
  unfold renormalizes. destruct (normalizeTime (match_timeRegex t)) as [t'|].
  - rewrite str_eqb_eq. split; congruence.
  - split; discriminate.
Qed.

(** ** Claims on [normalizeTime] *)

(** C3 (as amended): normalizing is idempotent exactly on the time
    expressions whose hour digits read at most 24.  The canonical string of
    any match is matched again as a whole; normalizing it again gives the
    identical string when the hour read was at most 24, and a different
    string when it was above 24. *)
Theorem normalizeTime_idempotent_up_to_24 (s : jsstring) (m : RegExpMatch) :
  match_timeRegex s = Some m ->
  exists t,
    normalizeTime (Some m) = Some t /\
    (exists m', match_timeRegex t = Some m' /\ index m' = 0%nat /\ m0 m' = t) /\
    (num_leb (hourOf m) 24 = true ->
     normalizeTime (match_timeRegex t) = Some t) /\
    (num_leb (hourOf m) 24 = false ->
     normalizeTime (match_timeRegex t) <> Some t).
Proof.
  intros H. apply match_timeRegex_ok in H.
  pose proof (forall_captures idempotent_check idempotent_check_all m H) as C.
  unfold idempotent_check in C. rewrite <- normalizeTime_captures in C.
  change (hourOf (ofCaptures (m1 m) (m2 m) (m3 m))) with (hourOf m) in C.
  destruct (normalizeTime (Some m)) as [t|]; try discriminate.
  exists t. apply andb_prop in C. destruct C as [W C].
  split; [reflexivity|]. split.
  - unfold rematchesWhole in W. destruct (match_timeRegex t) as [m'|];
      try discriminate.
    apply andb_prop in W. destruct W as [W1 W2].
    exists m'. repeat split.
    + apply PeanoNat.Nat.eqb_eq. exact W1.
    + apply str_eqb_eq. exact W2.
  - apply Bool.eqb_prop in C. split; intros E; rewrite E in C.
    + apply renormalizes_true. exact C.
    + intros F. apply renormalizes_true in F. congruence.
Qed.

Lemma normalizeTime_idempotent_up_to_24_witness :
  exists m, match_timeRegex (js "13:00") = Some m /\
  exists t,
    normalizeTime (Some m) = Some t /\
    (exists m', match_timeRegex t = Some m' /\ index m' = 0%nat /\ m0 m' = t) /\
    (num_leb (hourOf m) 24 = true ->
     normalizeTime (match_timeRegex t) = Some t) /\
    (num_leb (hourOf m) 24 = false ->
     normalizeTime (match_timeRegex t) <> Some t).
Proof.
  eexists. split.
  - reflexivity.
  - apply (normalizeTime_idempotent_up_to_24 (js "13:00")). reflexivity.
Defined.

(** C3 as stated fails: the line 25 is matched and normalized to 13:00 PM,
    and 13:00 PM is normalized to 1:00 PM. *)
Lemma normalizeTime_not_idempotent :
  ~ (forall s m t,
       match_timeRegex s = Some m ->
       normalizeTime (Some m) = Some t ->
       normalizeTime (match_timeRegex t) = Some t).
Proof.
  intros H.
  specialize (H (js "25") _ (js "13:00 PM") eq_refl eq_refl).
  vm_compute in H. discriminate.
Qed.

(** C4: without a meridiem in the match, AM is inferred for the hours 7 to
    11 and PM for every other hour; an hour above 12 is shown reduced by 12
    (and its meridiem is then PM).  7:30 gives 7:30 AM and 13:00 gives
    1:00 PM. *)
Theorem meridiem_inferred_when_absent :
  (forall s m,
     match_timeRegex s = Some m -> m3 m = None ->
     exists h mi,
       hourOf m = Num h /\ minuteOf m = Num mi /\
       normalizeTime (Some m) =
         Some (fmtTime (hour12 h) mi
                 (if (7 <=? h) && (h <=? 11) then js "AM" else js "PM")) /\
       (12 < h -> hour12 h = h - 12)) /\
  normalizeTime (match_timeRegex (js "7:30")) = Some (js "7:30 AM") /\
  normalizeTime (match_timeRegex (js "13:00")) = Some (js "1:00 PM").
Proof.
  split; [|split; reflexivity].
  intros s m H H3. apply match_timeRegex_ok in H.
  destruct (normalizeTime_closed m H) as [h [mi [Hh [_ [Hm [_ [_ E]]]]]]].
  exists h, mi. repeat split; auto.
  - rewrite E, H3. unfold meridiemOf. destruct (12 <? h) eqn:E12; auto.
    apply N.ltb_lt in E12.
    replace (h <=? 11) with false
      by (symmetry; apply N.leb_gt; lia).
    rewrite andb_false_r. reflexivity.
  - intros L. unfold hour12.
    replace (h =? 0) with false by (symmetry; apply N.eqb_neq; lia).
    apply N.ltb_lt in L. rewrite L. reflexivity.
Qed.

Lemma meridiem_inferred_when_absent_witness :
  exists m, match_timeRegex (js "at 9 sharp") = Some m /\ m3 m = None /\
  exists h mi,
    hourOf m = Num h /\ minuteOf m = Num mi /\
    normalizeTime (Some m) =
      Some (fmtTime (hour12 h) mi
              (if (7 <=? h) && (h <=? 11) then js "AM" else js "PM")) /\
    (12 < h -> hour12 h = h - 12).
Proof.
  eexists. split; [reflexivity|]. split; [reflexivity|].
  apply (proj1 meridiem_inferred_when_absent (js "at 9 sharp")); reflexivity.
Defined.

(** C5 (as amended): 0:15 without a meridiem is not normalized to 12:15 AM.
    Hour 0 is given PM by the inference and is then shown as 12, the minutes
    being kept: the result is 12:15 PM.  (12:00 PM is the result for 0:00.) *)
Theorem zero_hour_without_meridiem :
  normalizeTime (match_timeRegex (js "0:15")) <> Some (js "12:15 AM") /\
  normalizeTime (match_timeRegex (js "0:15")) = Some (js "12:15 PM") /\
  normalizeTime (match_timeRegex (js "0:00")) = Some (js "12:00 PM").
Proof.
  split; [|split; reflexivity]. vm_compute. discriminate.
Qed.

(** C5 as stated fails: the result for 0:15 is not 12:00 PM. *)
Lemma zero_fifteen_is_not_noon :
  ~ (normalizeTime (match_timeRegex (js "0:15")) <> Some (js "12:15 AM") /\
     normalizeTime (match_timeRegex (js "0:15")) = Some (js "12:00 PM")).
Proof.
  intros [_ H]. vm_compute in H. discriminate.
Qed.

(** ** The three outcomes of a line *)

Lemma normalizeTime_Some m :
  exists t, normalizeTime (Some m) = Some t /\ truthy (Some t) = true /\ In 58 t.
Proof.
  unfold normalizeTime.
  match goal with
  | |- exists t, Some (?a ++ js ":" ++ ?b) = Some t /\ _ =>
      exists (a ++ js ":" ++ b); split; [reflexivity|]; split;
        [destruct a; reflexivity | apply in_or_app; right; left; reflexivity]
  end.
Qed.

Lemma truthy_normalizeTime m :
  truthy (normalizeTime m) = true -> exists m', m = Some m'.
Proof.
  destruct m as [m'|]; [eauto | discriminate].
Qed.

Lemma detectRange_cases line lower time activity :
  detectRange line lower time activity = (time, activity) \/
  exists part0 part1 ms me start end_,
    split re_tillTo line = [part0; part1] /\
    match_timeRegex part0 = Some ms /\ match_timeRegex part1 = Some me /\
    normalizeTime (Some ms) = Some start /\
    normalizeTime (Some me) = Some end_ /\
    detectRange line lower time activity =
      (start ++ EN_DASH ++ end_, trim (replace_timeRegex part0)).
Proof.
  unfold detectRange.
  destruct (includes lower (js "till") || includes lower (js "to")); auto.
  destruct (split re_tillTo line) as [|part0 [|part1 [|]]]; auto.
  destruct (truthy (normalizeTime (match_timeRegex part0)) &&
            truthy (normalizeTime (match_timeRegex part1))) eqn:E; auto.
  apply andb_prop in E. destruct E as [E0 E1].
  destruct (truthy_normalizeTime _ E0) as [ms Hs].
  destruct (truthy_normalizeTime _ E1) as [me He].
  destruct (normalizeTime_Some ms) as [start [Ns _]].
  destruct (normalizeTime_Some me) as [end_ [Ne _]].
  right. exists part0, part1, ms, me, start, end_.
  rewrite Hs, He, Ns, Ne. simpl. auto 10.
Qed.

Lemma app_dash_nonempty (a b : jsstring) : isEmpty (a ++ EN_DASH ++ b) = false.
Proof. destruct a; reflexivity. Qed.

Lemma isEmpty_truthy t : truthy (Some t) = true -> isEmpty t = false.
Proof. destruct t; [discriminate | reflexivity]. Qed.

(** Every line gives a row, by one of the three ways. *)
Lemma processLine_outcome line :
  exists r, processLine line = Ok r /\ outcome line r.
Proof.
  unfold processLine.
  destruct (detectRange_cases line (toLowerCase line) []
              (snd match match_durationRegex line with
                   | Some d =>
                       (orEmpty (m1 d), trim (replaceString line (m0 d)))
                   | None => ([], line)
                   end))
    as [E | [part0 [part1 [ms [me [start [end_ [Hs [H0 [H1 [N0 [N1 E]]]]]]]]]]]];
    rewrite E; clear E; cbn [fst snd].
  - unfold detectSingle. cbn [isEmpty].
    destruct (match_timeRegex line) as [m|] eqn:Hm.
    + destruct (normalizeTime_Some m) as [t [Nt [Tt _]]].
      rewrite Nt, Tt. cbn [nonNull bind fst snd orEmpty].
      rewrite (isEmpty_truthy _ Tt).
      eexists. split; [reflexivity|].
      replace (fst match match_durationRegex line with
                   | Some d =>
                       (orEmpty (m1 d), trim (replaceString line (m0 d)))
                   | None => ([], line)
                   end) with (notesOf line)
        by (unfold notesOf; destruct (match_durationRegex line); reflexivity).
      apply SingleRow; assumption.
    + cbn [normalizeTime truthy bind fst snd isEmpty].
      eexists. split; [reflexivity|].
      replace (fst match match_durationRegex line with
                   | Some d =>
                       (orEmpty (m1 d), trim (replaceString line (m0 d)))
                   | None => ([], line)
                   end) with (notesOf line)
        by (unfold notesOf; destruct (match_durationRegex line); reflexivity).
      replace (snd match match_durationRegex line with
                   | Some d =>
                       (orEmpty (m1 d), trim (replaceString line (m0 d)))
                   | None => ([], line)
                   end) with (workingText line)
        by (unfold workingText; destruct (match_durationRegex line); reflexivity).
      apply NoTimeRow; assumption.
  - unfold detectSingle. rewrite app_dash_nonempty. cbn [bind fst snd].
    rewrite app_dash_nonempty.
    eexists. split; [reflexivity|].
    replace (fst match match_durationRegex line with
                 | Some d =>
                     (orEmpty (m1 d), trim (replaceString line (m0 d)))
                 | None => ([], line)
                 end) with (notesOf line)
      by (unfold notesOf; destruct (match_durationRegex line); reflexivity).
    eapply RangeRow; eassumption.
Qed.

(** ** The time field of a row *)

Lemma upTo99_In n : n <= 99 -> In n upTo99.
Proof.
  intros H. unfold upTo99. rewrite <- (N2Nat.id n). apply in_map.
  apply in_seq. lia.
Qed.

Lemma padStart2_check :
  forallb (fun mi => str_eqb (padStart2 (toString (Num mi)))
                             [48 + mi / 10; 48 + mi mod 10]) upTo99 = true.
Proof. vm_compute. reflexivity. Qed.

Lemma padStart2_digits mi :
  mi <= 99 -> padStart2 (toString (Num mi)) = [48 + mi / 10; 48 + mi mod 10].
Proof.
  intros H. apply str_eqb_eq.
  exact (proj1 (forallb_forall _ _) padStart2_check mi (upTo99_In mi H)).
Qed.

Lemma hour12_bounds h :
  h <= 99 -> 1 <= hour12 h <= 87 /\ (h <= 24 -> hour12 h <= 12).
Proof.
  intros H. unfold hour12.
  destruct (h =? 0) eqn:E0; [lia|]. apply N.eqb_neq in E0.
  destruct (12 <? h) eqn:E12.
  - apply N.ltb_lt in E12. lia.
  - apply N.ltb_ge in E12. lia.
Qed.

Lemma meridiemOf_cases h g :
  meridiemCapture_ok g = true ->
  meridiemOf h g = js "AM" \/ meridiemOf h g = js "PM".
Proof.
  intros H. unfold meridiemOf. destruct (12 <? h); auto.
  apply meridiemCapture_cases in H.
  destruct H as [H | [H | [H | [H | H]]]]; subst g; auto.
  destruct ((7 <=? h) && (h <=? 11)); auto.
Qed.

(** The canonical string of a match: its hour is from 1 to 87 and its
    minute up to 99; the hour is from 1 to 12 when the hour read is at most
    24, the minute at most 59 when the minute read is. *)
Lemma normalizeTime_canonical m :
  timeMatch_ok m = true ->
  exists t,
    normalizeTime (Some m) = Some t /\ canonicalTime 87 99 t /\
    (num_leb (hourOf m) 24 = true -> num_leb (minuteOf m) 59 = true ->
     canonicalTime 12 59 t).
Proof.
  intros H.
  destruct (normalizeTime_closed m H) as [h [mi [Hh [Bh [Hm [Bm [_ E]]]]]]].
  assert (H3 : meridiemCapture_ok (m3 m) = true).
  { unfold timeMatch_ok in H. apply andb_prop in H. tauto. }
  destruct (hour12_bounds h Bh) as [B1 B2].
  eexists. split; [exact E|]. unfold fmtTime. rewrite (padStart2_digits mi Bm).
  split.
  - exists (hour12 h), mi, (meridiemOf h (m3 m)).
    repeat split; try tauto; auto using meridiemOf_cases.
  - rewrite Hh, Hm. cbn [num_leb]. intros L1 L2.
    apply N.leb_le in L1. apply N.leb_le in L2.
    exists (hour12 h), mi, (meridiemOf h (m3 m)).
    repeat split; try tauto; auto using meridiemOf_cases.
Qed.

Lemma match_canonical s m t :
  match_timeRegex s = Some m -> normalizeTime (Some m) = Some t ->
  canonicalTime 87 99 t.
Proof.
  intros H E. apply match_timeRegex_ok in H.
  destruct (normalizeTime_canonical m H) as [t' [E' [C _]]]. congruence.
Qed.

(** The time field of every row: the absence marker, a canonical time or a
    range of two. *)
Lemma processLine_timeField line :
  exists r, processLine line = Ok r /\ timeField 87 99 (time r).
Proof.
  destruct (processLine_outcome line) as [r [E O]].
  exists r. split; [exact E|].
  destruct O; cbn [time]; unfold timeField.
  - right. right. eauto 8 using match_canonical.
  - right. left. eauto using match_canonical.
  - left. reflexivity.
Qed.






(** ** A match inside a prefix is a match of the whole *)

Lemma matched_orElse {A : Type} (x y : option A) :
  matched (orElse x y) = matched x || matched y.
Proof. destruct x; reflexivity. Qed.

Lemma matched_option_map {A B : Type} (f : A -> B) (x : option A) :
  matched (option_map f x) = matched x.
Proof. destruct x; reflexivity. Qed.

Lemma matched_false {A : Type} (o : option A) :
  matched o = false -> o = None.
Proof. destruct o; [discriminate | reflexivity]. Qed.

Lemma isMeridiem_word a b : isMeridiem a b = true -> isWordChar b = true.
Proof.
  unfold isMeridiem. intros H.
  apply orb_prop in H. destruct H as [H | H];
    apply andb_prop in H; destruct H as [_ H];
    apply N.eqb_eq in H; subst b; reflexivity.
Qed.

Lemma re_meridiem_ext last a b :
  isWordAt (lastUnit last a) = false ->
  matched (re_meridiem last a) = true ->
  matched (re_meridiem last (a ++ b)) = true.
Proof.
  unfold re_meridiem. rewrite !matched_orElse. intros L H.
  destruct a as [|x [|y [|z a']]]; cbn [app].
  - simpl in L. unfold wordBoundary in H. simpl in H. rewrite L in H.
    discriminate.
  - simpl in H. apply orb_true_iff. right.
    unfold wordBoundary in *. simpl in *.
    destruct (xorb (isWordAt last) (isWordChar x)); [reflexivity | discriminate].
  - simpl in L. apply orb_prop in H. destruct H as [H | H].
    + destruct (isMeridiem x y) eqn:E; try discriminate.
      apply isMeridiem_word in E. congruence.
    + apply orb_true_iff. right.
      unfold wordBoundary in *. simpl in *.
      destruct (xorb (isWordAt last) (isWordChar x)); [reflexivity | discriminate].
  - exact H.
Qed.

Lemma re_spaces_ext a : forall last b,
  isWordAt (lastUnit last a) = false ->
  matched (re_spaces last a) = true ->
  matched (re_spaces last (a ++ b)) = true.
Proof.
  induction a as [|c a' IH]; intros last b L H;
    rewrite re_spaces_eq in H; rewrite re_spaces_eq;
    rewrite matched_orElse in *; apply orb_prop in H; apply orb_true_iff.
  - destruct H as [H | H]; [discriminate|].
    right. apply (re_meridiem_ext last [] b); assumption.
  - destruct H as [H | H].
    + left. cbn [app]. destruct (isSpace c); try discriminate.
      rewrite matched_option_map in *. apply IH; assumption.
    + right. apply (re_meridiem_ext last (c :: a') b); assumption.
Qed.

Lemma re_minutes_ext last a b :
  isWordAt (lastUnit last a) = false ->
  matched (re_minutes last a) = true ->
  matched (re_minutes last (a ++ b)) = true.
Proof.
  unfold re_minutes. rewrite !matched_orElse, !matched_option_map.
  intros L H. apply orb_prop in H. apply orb_true_iff.
  destruct H as [H | H].
  - left. destruct a as [|c [|d1 [|d2 a']]]; try discriminate. cbn [app].
    destruct ((c =? 58) && isDigit d1 && isDigit d2); try discriminate.
    rewrite matched_option_map in *. apply re_spaces_ext; assumption.
  - right. apply re_spaces_ext; assumption.
Qed.

Lemma re_hour_ext a b :
  isWordAt (lastUnit None a) = false ->
  matched (re_hour a) = true ->
  matched (re_hour (a ++ b)) = true.
Proof.
  unfold re_hour. destruct a as [|d1 a1]; try discriminate. cbn [app].
  destruct (isDigit d1); try discriminate.
  rewrite !matched_orElse, !matched_option_map.
  intros L H. apply orb_prop in H. apply orb_true_iff.
  destruct H as [H | H].
  - left. destruct a1 as [|d2 a2]; try discriminate. cbn [app].
    destruct (isDigit d2); try discriminate.
    rewrite matched_option_map in *. apply re_minutes_ext; assumption.
  - right. apply re_minutes_ext; assumption.
Qed.

Lemma timeRegex_at_ext prev a b :
  isWordAt (lastUnit prev a) = false ->
  matched (timeRegex_at prev a) = true ->
  matched (timeRegex_at prev (a ++ b)) = true.
Proof.
  unfold timeRegex_at. intros L H.
  destruct a as [|c a'].
  - destruct (wordBoundary prev []); discriminate.
  - replace (wordBoundary prev ((c :: a') ++ b))
      with (wordBoundary prev (c :: a')) by reflexivity.
    destruct (wordBoundary prev (c :: a')); try discriminate.
    apply re_hour_ext; assumption.
Qed.

Lemma timeRegex_from_matched i prev s :
  matched (timeRegex_at prev s) = true ->
  matched (timeRegex_from i prev s) = true.
Proof.
  intros H. destruct s; simpl;
    destruct (timeRegex_at prev _) as [[[[t g1] g2] g3]|]; auto; discriminate.
Qed.

Lemma timeRegex_from_ext a : forall i prev b,
  isWordAt (lastUnit prev a) = false ->
  matched (timeRegex_from i prev a) = true ->
  matched (timeRegex_from i prev (a ++ b)) = true.
Proof.
  induction a as [|c a' IH]; intros i prev b L H.
  - simpl in H. unfold timeRegex_at in H.
    destruct (wordBoundary prev []); discriminate.
  - destruct (matched (timeRegex_at prev (c :: a'))) eqn:E.
    + apply timeRegex_from_matched. apply timeRegex_at_ext; assumption.
    + apply matched_false in E. simpl in H. rewrite E in H.
      cbn [app]. simpl.
      destruct (timeRegex_at prev (c :: a' ++ b)) as [[[[t g1] g2] g3]|];
        [reflexivity|].
      apply IH; assumption.
Qed.

(** A match that starts after a prefix is found, or an earlier one is. *)
Lemma timeRegex_from_later pre : forall i prev s,
  matched (timeRegex_at (lastUnit prev pre) s) = true ->
  matched (timeRegex_from i prev (pre ++ s)) = true.
Proof.
  induction pre as [|c pre IH]; intros i prev s H.
  - apply timeRegex_from_matched. exact H.
  - cbn [app]. simpl.
    destruct (timeRegex_at prev (c :: pre ++ s)) as [[[[t g1] g2] g3]|];
      [reflexivity|].
    apply IH. exact H.
Qed.

(** ** The first part of a split *)

Lemma split_go_first (re : matcher) s : forall prev cur p0 p1 tl,
  split_go re prev s cur 0 = p0 :: p1 :: tl ->
  exists pre rest n,
    s = pre ++ rest /\ p0 = rev cur ++ pre /\
    re (lastUnit prev pre) rest = Some n.
Proof.
  induction s as [|c s' IH]; intros prev cur p0 p1 tl H; simpl in H.
  - discriminate.
  - destruct (re prev (c :: s')) as [[|k]|] eqn:E.
    + destruct (isEmpty cur) eqn:Ec.
      * destruct cur; try discriminate.
        apply IH in H. destruct H as [pre [rest [n [H1 [H2 H3]]]]].
        exists (c :: pre), rest, n. subst. auto.
      * inversion H; subst. exists [], (c :: s'), 0%nat.
        rewrite app_nil_r. auto.
    + inversion H; subst. exists [], (c :: s'), (S k).
      rewrite app_nil_r. auto.
    + apply IH in H. destruct H as [pre [rest [n [H1 [H2 H3]]]]].
      exists (c :: pre), rest, n. subst. simpl. rewrite <- app_assoc. auto.
Qed.

Lemma split_first (re : matcher) s p0 p1 tl :
  split re s = p0 :: p1 :: tl ->
  exists rest n, s = p0 ++ rest /\ re (lastUnit None p0) rest = Some n.
Proof.
  unfold split. destruct s as [|c s'].
  - destruct (re None []); discriminate.
  - intros H. apply split_go_first in H.
    destruct H as [pre [rest [n [H1 [H2 H3]]]]]. simpl in H2. subst p0.
    eauto.
Qed.

Lemma canonicalize_t b :
  (canonicalize 116 =? canonicalize b) = true -> isWordChar b = true.
Proof.
  unfold canonicalize at 2. unfold isWordChar.
  destruct (inRange 97 122 b) eqn:E; [reflexivity|].
  intros H. apply N.eqb_eq in H. subst b. reflexivity.
Qed.

(** The words till and to are found after a code unit that is not a word
    character only. *)
Lemma re_tillTo_after prev s n :
  re_tillTo prev s = Some n -> isWordAt prev = false.
Proof.
  unfold re_tillTo, wordBoundary. intros H.
  destruct s as [|b s'].
  - simpl in H. destruct (xorb (isWordAt prev) false); discriminate.
  - assert (W : isWordChar b = true).
    { destruct (xorb (isWordAt prev) (isWordAt (hd_error (b :: s'))));
        try discriminate.
      apply orElse_Some in H. unfold re_word in H.
      destruct H as [H | [_ H]].
      - destruct (startsWithCI (js "till") (b :: s')) eqn:E;
          try discriminate.
        apply andb_prop in E. apply canonicalize_t. tauto.
      - destruct (startsWithCI (js "to") (b :: s')) eqn:E;
          try discriminate.
        apply andb_prop in E. apply canonicalize_t. tauto. }
    simpl in H. rewrite W in H.
    destruct (isWordAt prev); [discriminate | reflexivity].
Qed.

Lemma includes_app a : forall b p,
  startsWith p b = true -> includes (a ++ b) p = true.
Proof.
  induction a as [|c a IH]; intros b p H.
  - destruct b; simpl; rewrite H; reflexivity.
  - cbn [app includes]. rewrite (IH b p H). apply orb_true_r.
Qed.

Lemma lowerUnit_letter a b :
  inRange 97 122 a = true ->
  (canonicalize a =? canonicalize b) = true -> lowerUnit b = [a].
Proof.
  unfold canonicalize, lowerUnit, inRange. intros Ha H. rewrite Ha in H.
  apply andb_prop in Ha. destruct Ha as [A1 A2].
  apply N.leb_le in A1. apply N.leb_le in A2. apply N.eqb_eq in H.
  destruct ((97 <=? b) && (b <=? 122)) eqn:Eb.
  - apply andb_prop in Eb. destruct Eb as [B1 B2].
    apply N.leb_le in B1. apply N.leb_le in B2.
    assert (b = a) by lia. subst b.
    replace ((65 <=? a) && (a <=? 90)) with false
      by (symmetry; apply andb_false_iff; right; apply N.leb_gt; lia).
    replace (a =? 0x130) with false by (symmetry; apply N.eqb_neq; lia).
    replace (a =? 0x212A) with false by (symmetry; apply N.eqb_neq; lia).
    reflexivity.
  - subst b.
    replace ((65 <=? a - 32) && (a - 32 <=? 90)) with true
      by (symmetry; apply andb_true_iff; split; apply N.leb_le; lia).
    f_equal. lia.
Qed.

Lemma startsWithCI_lower p : forall s,
  forallb (inRange 97 122) p = true ->
  startsWithCI p s = true -> startsWith p (toLowerCase s) = true.
Proof.
  induction p as [|a p IH]; intros s L H; [reflexivity|].
  destruct s as [|b s]; [discriminate|].
  cbn [forallb] in L. apply andb_prop in L. destruct L as [La Lp].
  cbn [startsWithCI] in H. apply andb_prop in H. destruct H as [Hb Hs].
  unfold toLowerCase. cbn [flat_map]. rewrite (lowerUnit_letter a b La Hb).
  cbn [app startsWith]. rewrite N.eqb_refl. apply (IH s Lp Hs).
Qed.

(** The test on [lower] never decides: when the line splits in two at till
    or to, its lowered form includes the word.  (So the row does not depend
    on how code units above 127 are lowered.) *)
Lemma tillTo_guard_holds line part0 part1 :
  split re_tillTo line = [part0; part1] ->
  includes (toLowerCase line) (js "till") ||
  includes (toLowerCase line) (js "to") = true.
Proof.
  intros H. apply split_first in H. destruct H as [rest [n [E R]]].
  subst line. unfold toLowerCase. rewrite flat_map_app.
  unfold re_tillTo in R.
  destruct (wordBoundary (lastUnit None part0) rest); [|discriminate].
  apply orElse_Some in R. unfold re_word in R. apply orb_true_iff.
  destruct R as [R | [_ R]].
  - left. destruct (startsWithCI (js "till") rest) eqn:S; [|discriminate].
    apply includes_app. apply (startsWithCI_lower (js "till")); auto.
  - right. destruct (startsWithCI (js "to") rest) eqn:S; [|discriminate].
    apply includes_app. apply (startsWithCI_lower (js "to")); auto.
Qed.

(** When the line splits in two at till or to, a time found in the first
    part is found in the line. *)
Lemma range_start_in_line line part0 part1 :
  split re_tillTo line = [part0; part1] ->
  matched (match_timeRegex part0) = true ->
  matched (match_timeRegex line) = true.
Proof.
  intros H M. apply split_first in H. destruct H as [rest [n [E R]]].
  apply re_tillTo_after in R. subst line.
  apply timeRegex_from_ext; assumption.
Qed.

(** ** Claims on the time field *)

Lemma isDigit_word c : isDigit c = true -> isWordChar c = true.
Proof.
  unfold isWordChar. intros H. rewrite H. rewrite orb_true_r. reflexivity.
Qed.

Lemma re_minutes_bare c post :
  isWordChar c = true -> isWordAt (hd_error post) = false ->
  matched (re_minutes (Some c) post) = true.
Proof.
  intros W P. unfold re_minutes.
  rewrite matched_orElse, !matched_option_map. apply orb_true_iff. right.
  rewrite re_spaces_eq, matched_orElse. apply orb_true_iff. right.
  unfold re_meridiem. rewrite matched_orElse. apply orb_true_iff. right.
  unfold wordBoundary. simpl. rewrite W, P. reflexivity.
Qed.

Lemma standalone_matched pre d post :
  standaloneNumber pre d post ->
  matched (match_timeRegex (pre ++ d ++ post)) = true.
Proof.
  intros [L [Len [D P]]]. apply timeRegex_from_later.
  unfold timeRegex_at, wordBoundary. rewrite L.
  destruct d as [|d1 [|d2 [|]]]; simpl in Len; try lia; simpl in D.
  - rewrite andb_true_r in D. cbn [app hd_error isWordAt].
    rewrite (isDigit_word _ D). cbn [xorb]. unfold re_hour. rewrite D.
    rewrite matched_orElse, !matched_option_map. apply orb_true_iff. right.
    apply re_minutes_bare; auto using isDigit_word.
  - rewrite andb_true_r in D. apply andb_prop in D. destruct D as [D1 D2].
    cbn [app hd_error isWordAt].
    rewrite (isDigit_word _ D1). cbn [xorb]. unfold re_hour. rewrite D1, D2.
    rewrite matched_orElse, !matched_option_map. apply orb_true_iff. left.
    apply re_minutes_bare; auto using isDigit_word.
Qed.

Lemma time_absent_iff line r :
  outcome line r -> (time r = EM_DASH <-> match_timeRegex line = None).
Proof.
  intros O. destruct O as [part0 part1 ms me start end_ Hs H0 H1 N0 N1
                          | m t Hm Nt | Hm]; cbn [time].
  - split; intros H.
    + destruct (normalizeTime_Some ms) as [t [Nt [_ I]]].
      assert (E : t = start) by congruence. subst t.
      assert (I' : In 58 (start ++ EN_DASH ++ end_))
        by (apply in_or_app; auto).
      rewrite H in I'. simpl in I'. intuition discriminate.
    + assert (M : matched (match_timeRegex line) = true).
      { apply (range_start_in_line line part0 part1 Hs). rewrite H0.
        reflexivity. }
      rewrite H in M. discriminate.
  - split; intros H.
    + destruct (normalizeTime_Some m) as [t' [Nt' [_ I]]].
      assert (E : t' = t) by congruence. subst t'.
      rewrite H in I. simpl in I. intuition discriminate.
    + congruence.
  - tauto.
Qed.

(** C10: the time field of a row is the absence marker exactly when no
    match of the time pattern is found in its line.  A line in which a number
    of one or two digits stands alone therefore gets a normalized time, not
    the absence marker; Slept 8 hours gets 8:00 AM. *)
Theorem time_absent_iff_no_match :
  (forall line,
     exists r, processLine line = Ok r /\
               (time r = EM_DASH <-> match_timeRegex line = None)) /\
  (forall pre d post,
     standaloneNumber pre d post ->
     exists r, processLine (pre ++ d ++ post) = Ok r /\
               time r <> EM_DASH /\ timeField 87 99 (time r)) /\
  (exists r, processLine (js "Slept 8 hours") = Ok r /\
             time r = js "8:00 AM").
Proof.
  split; [|split].
  - intros line. destruct (processLine_outcome line) as [r [E O]].
    exists r. split; [exact E | apply time_absent_iff; exact O].
  - intros pre d post S.
    destruct (processLine_timeField (pre ++ d ++ post)) as [r [E F]].
    exists r. split; [exact E|]. split; [|exact F].
    destruct (processLine_outcome (pre ++ d ++ post)) as [r' [E' O]].
    assert (r' = r) by congruence. subst r'.
    intros A. apply (time_absent_iff _ _ O) in A.
    apply standalone_matched in S. rewrite A in S. discriminate.
  - eexists. split; reflexivity.
Qed.

Lemma time_absent_iff_no_match_witness :
  exists r, processLine (js "Slept " ++ js "8" ++ js " hours") = Ok r /\
            time r <> EM_DASH /\ timeField 87 99 (time r).
Proof.
  apply (proj1 (proj2 time_absent_iff_no_match) (js "Slept ") (js "8") (js " hours")).
  unfold standaloneNumber. simpl. auto.
Defined.

(** ** Where the code units of a row come from *)

Lemma dropWhile_incl p s : incl (dropWhile p s) s.
Proof.
  induction s as [|c s IH]; simpl; [apply incl_refl|].
  destruct (p c); [apply incl_tl; exact IH | apply incl_refl].
Qed.

Lemma rev_incl (s : jsstring) : incl (rev s) s.
Proof. intros x H. apply in_rev. exact H. Qed.

Lemma trim_incl s : incl (trim s) s.
Proof.
  unfold trim, trimEnd, trimStart.
  eapply incl_tran; [apply rev_incl|].
  eapply incl_tran; [apply dropWhile_incl|].
  eapply incl_tran; [apply rev_incl|]. apply dropWhile_incl.
Qed.

Lemma skipn_incl n : forall s : jsstring, incl (skipn n s) s.
Proof.
  induction n as [|n IH]; intros [|c s]; simpl;
    try apply incl_refl. apply incl_tl. apply IH.
Qed.

Lemma firstn_incl n : forall s : jsstring, incl (firstn n s) s.
Proof.
  induction n as [|n IH]; intros [|c s]; simpl;
    try apply incl_refl; try apply incl_nil_l.
  apply incl_cons; [left; reflexivity | apply incl_tl; apply IH].
Qed.

Lemma replaceString_incl p s : incl (replaceString s p) s.
Proof.
  induction s as [|c s IH]; simpl.
  - destruct (startsWith p []); [apply skipn_incl | apply incl_refl].
  - destruct (startsWith p (c :: s)); [apply skipn_incl|].
    apply incl_cons; [left; reflexivity | apply incl_tl; exact IH].
Qed.

Lemma replace_timeRegex_incl s : incl (replace_timeRegex s) s.
Proof.
  unfold replace_timeRegex. destruct (match_timeRegex s); [|apply incl_refl].
  apply incl_app; [apply firstn_incl | apply skipn_incl].
Qed.

Lemma replace_atAroundBy_incl s : forall prev,
  incl (replace_atAroundBy prev s) s.
Proof.
  induction s as [|c s IH]; intros prev; simpl.
  - destruct (re_atAroundBy prev []); [apply skipn_incl | apply incl_refl].
  - destruct (re_atAroundBy prev (c :: s)); [apply skipn_incl|].
    apply incl_cons; [left; reflexivity | apply incl_tl; apply IH].
Qed.

Lemma replace_leadingDashes_incl s : incl (replace_leadingDashes s) s.
Proof.
  unfold replace_leadingDashes. destruct s as [|c s]; [apply incl_refl|].
  destruct (c =? 45); [|apply incl_refl].
  eapply incl_tran; apply dropWhile_incl.
Qed.

Lemma replace_trailingDash_incl s : incl (replace_trailingDash s) s.
Proof.
  induction s as [|c s IH]; simpl.
  - destruct (re_trailingDash []); apply incl_refl.
  - destruct (re_trailingDash (c :: s)); [apply incl_nil_l|].
    apply incl_cons; [left; reflexivity | apply incl_tl; exact IH].
Qed.

Lemma replace_spaceRuns_In s : forall inRun x,
  In x (replace_spaceRuns inRun s) -> x = 32 \/ In x s.
Proof.
  induction s as [|c s IH]; intros inRun x H; simpl in H; [tauto|].
  destruct inRun.
  - destruct (isSpace c).
    + apply IH in H. simpl. tauto.
    + destruct H as [H | H]; [simpl; auto|]. apply IH in H. simpl. tauto.
  - destruct (isSpace c && match s with d :: _ => isSpace d | [] => false end);
      (destruct H as [H | H]; [simpl; auto|]; apply IH in H; simpl; tauto).
Qed.

Lemma cleanActivity_In a x : In x (cleanActivity a) -> x = 32 \/ In x a.
Proof.
  unfold cleanActivity, replace_bangs. intros H.
  apply trim_incl in H. apply replace_trailingDash_incl in H.
  apply incl_filter in H. apply replace_spaceRuns_In in H.
  destruct H as [H | H]; [auto|]. right.
  apply replace_leadingDashes_incl in H. exact H.
Qed.

Lemma split_go_incl (re : matcher) s : forall prev cur skip p,
  In p (split_go re prev s cur skip) -> incl p (cur ++ s).
Proof.
  induction s as [|c s' IH]; intros prev cur skip p H; simpl in H.
  - destruct H as [H | []]. subst p. rewrite app_nil_r. apply rev_incl.
  - assert (K : forall q, incl q (cur ++ s') -> incl q (cur ++ c :: s')).
    { intros q Hq x Hx. apply Hq in Hx. apply in_app_or in Hx.
      apply in_or_app. simpl. tauto. }
    assert (K0 : incl (rev cur) (cur ++ c :: s')).
    { eapply incl_tran; [apply rev_incl | apply incl_appl; apply incl_refl]. }
    assert (K1 : forall q, incl q ((c :: cur) ++ s') -> incl q (cur ++ c :: s')).
    { intros q Hq x Hx. apply Hq in Hx. simpl in Hx. apply in_or_app. simpl.
      destruct Hx as [Hx | Hx]; [auto|]. apply in_app_or in Hx. tauto. }
    assert (K2 : forall q, incl q ([] ++ s') -> incl q (cur ++ c :: s')).
    { intros q Hq x Hx. apply Hq in Hx. apply in_or_app. simpl. auto. }
    assert (K3 : forall q, incl q ([c] ++ s') -> incl q (cur ++ c :: s')).
    { intros q Hq x Hx. apply Hq in Hx. apply in_or_app. simpl in *. tauto. }
    destruct skip as [|k].
    + destruct (re prev (c :: s')) as [[|k]|].
      * destruct (isEmpty cur).
        -- apply IH in H. auto.
        -- destruct H as [H | H]; [subst p; exact K0|]. apply IH in H. auto.
      * destruct H as [H | H]; [subst p; exact K0|]. apply IH in H. auto.
      * apply IH in H. auto.
    + apply IH in H. auto.
Qed.

Lemma split_incl (re : matcher) s p : In p (split re s) -> incl p s.
Proof.
  unfold split. destruct s as [|c s'].
  - destruct (re None []); simpl; [tauto|].
    intros [H | []]. subst p. apply incl_refl.
  - intros H. apply split_go_incl in H. exact H.
Qed.

Lemma re_untilClose_incl s : forall g, re_untilClose s = Some g -> incl g s.
Proof.
  induction s as [|c s IH]; intros g H; simpl in H; [discriminate|].
  destruct (c =? 93).
  - inversion H. apply incl_nil_l.
  - destruct (isLineTerminator c); [discriminate|].
    apply option_map_Some in H. destruct H as [g' [H E]]. subst g.
    apply incl_cons; [left; reflexivity | apply incl_tl; auto].
Qed.

Lemma durationRegex_from_incl s : forall i d,
  durationRegex_from i s = Some d -> incl (orEmpty (m1 d)) s.
Proof.
  induction s as [|c s IH]; intros i d H; simpl in H; [discriminate|].
  destruct (c =? 91).
  - destruct (re_untilClose s) as [g|] eqn:E.
    + inversion H; subst. simpl. apply incl_tl. apply re_untilClose_incl. exact E.
    + apply incl_tl. eapply IH. exact H.
  - apply incl_tl. eapply IH. exact H.
Qed.

Lemma notesOf_incl line : incl (notesOf line) line.
Proof.
  unfold notesOf, match_durationRegex.
  destruct (durationRegex_from 0 line) eqn:E; [|apply incl_nil_l].
  eapply durationRegex_from_incl. exact E.
Qed.

Lemma workingText_incl line : incl (workingText line) line.
Proof.
  unfold workingText. destruct (match_durationRegex line); [|apply incl_refl].
  eapply incl_tran; [apply trim_incl | apply replaceString_incl].
Qed.

(** ** Rows hold no line feed *)

Lemma noLF_incl a b : incl a b -> noLF b -> noLF a.
Proof. unfold noLF. intros I H F. apply H. apply I. exact F. Qed.

Lemma noLF_app a b : noLF a -> noLF b -> noLF (a ++ b).
Proof.
  unfold noLF. intros Ha Hb F. apply in_app_or in F. tauto.
Qed.

Lemma digitsOfUint_noLF u : noLF (digitsOfUint u).
Proof.
  unfold noLF, LF. induction u; simpl; intros F;
    try (destruct F as [F | F]; [discriminate | tauto]); tauto.
Qed.

Lemma canonicalTime_noLF hmax mmax t : canonicalTime hmax mmax t -> noLF t.
Proof.
  intros [h [mi [mer [E [_ [_ M]]]]]]. subst t.
  repeat apply noLF_app.
  - apply digitsOfUint_noLF.
  - unfold noLF, LF. simpl. intuition discriminate.
  - unfold noLF, LF. generalize (mi / 10) (mi mod 10).
    intros q w [F | [F | []]]; lia.
  - unfold noLF, LF. simpl. intuition discriminate.
  - unfold noLF, LF. destruct M; subst mer; simpl; intuition discriminate.
Qed.

Lemma orDash_noLF a : noLF a -> noLF (orDash a).
Proof.
  unfold orDash. destruct (isEmpty a); auto.
  intros _. unfold noLF, LF. simpl. intuition discriminate.
Qed.

Lemma cleanActivity_noLF a : noLF a -> noLF (cleanActivity a).
Proof.
  unfold noLF, LF. intros H F. apply cleanActivity_In in F.
  destruct F as [F | F]; [discriminate | tauto].
Qed.

Lemma orDash_nonempty a : orDash a <> [].
Proof.
  unfold orDash. destruct a; simpl; discriminate.
Qed.

Lemma notesCell_nonempty r : notesCell r <> [].
Proof.
  unfold notesCell. destruct (notes r); simpl; discriminate.
Qed.

Lemma In_58_nonempty (t : jsstring) : In 58 t -> t <> [].
Proof. destruct t; simpl; [tauto | discriminate]. Qed.

Lemma outcome_filledRow line r : noLF line -> outcome line r -> filledRow r.
Proof.
  intros L O. unfold filledRow.
  assert (T : time r <> [] /\ noLF (time r)).
  { destruct O as [part0 part1 ms me start end_ Hs H0 H1 N0 N1
                  | m t Hm Nt | Hm]; cbn [time].
    - split.
      + destruct start; simpl; discriminate.
      + repeat apply noLF_app;
          eauto using canonicalTime_noLF, match_canonical.
        unfold noLF, LF. simpl. intuition discriminate.
    - split.
      + destruct (normalizeTime_Some m) as [t' [Nt' [_ I]]].
        assert (t' = t) by congruence. subst t'.
        apply In_58_nonempty. exact I.
      + eauto using canonicalTime_noLF, match_canonical.
    - split; [discriminate|]. unfold noLF, LF. simpl. intuition discriminate. }
  assert (A : activity r <> [] /\ noLF (activity r)).
  { destruct O as [part0 part1 ms me start end_ Hs H0 H1 N0 N1
                  | m t Hm Nt | Hm]; cbn [activity];
      (split; [apply orDash_nonempty|]);
      apply orDash_noLF; apply cleanActivity_noLF.
    - eapply noLF_incl; [|exact L].
      eapply incl_tran; [apply trim_incl|].
      eapply incl_tran; [apply replace_timeRegex_incl|].
      apply split_incl with (re := re_tillTo). rewrite Hs. left. reflexivity.
    - eapply noLF_incl; [|exact L].
      eapply incl_tran; [apply trim_incl|].
      eapply incl_tran; [apply replace_atAroundBy_incl|].
      apply replaceString_incl.
    - eapply noLF_incl; [apply workingText_incl | exact L]. }
  assert (N : noLF (notesCell r)).
  { unfold notesCell.
    replace (notes r) with (notesOf line) by (destruct O; reflexivity).
    destruct (isEmpty (notesOf line)).
    - unfold noLF, LF. simpl. intuition discriminate.
    - eapply noLF_incl; [apply notesOf_incl | exact L]. }
  repeat split; try tauto; try apply notesCell_nonempty.
  unfold renderRow. repeat apply noLF_app; try tauto;
    unfold noLF, LF; simpl; intuition discriminate.
Qed.

(** ** The loop and the lines *)

Lemma forLines_spec lines : forall acc,
  exists rows,
    forLines lines acc = Ok (acc ++ rows) /\ Forall2 outcome lines rows.
Proof.
  induction lines as [|line rest IH]; intros acc; simpl.
  - exists []. rewrite app_nil_r. split; [reflexivity | constructor].
  - destruct (processLine_outcome line) as [r [E O]]. rewrite E. simpl.
    destruct (IH (acc ++ [r])) as [rows [E' F]].
    exists (r :: rows). rewrite E', <- app_assoc. split; [reflexivity|].
    constructor; assumption.
Qed.

Lemma re_newline_None prev c s :
  re_newline prev (c :: s) = None -> c <> LF.
Proof.
  unfold re_newline, LF. intros H F. subst c. simpl in H. discriminate.
Qed.

Lemma re_newline_positive prev s : re_newline prev s <> Some 0%nat.
Proof.
  unfold re_newline. destruct s as [|c [|d s']]; try discriminate;
    destruct (c =? 13); destruct (c =? 10); simpl; try discriminate;
    destruct (d =? 10); discriminate.
Qed.

Lemma split_go_newline_noLF s : forall prev cur skip p,
  noLF cur ->
  In p (split_go re_newline prev s cur skip) -> noLF p.
Proof.
  induction s as [|c s' IH]; intros prev cur skip p L H;
    cbn [split_go] in H.
  - destruct H as [H | []]. subst p. eapply noLF_incl; [apply rev_incl | exact L].
  - assert (L0 : noLF (rev cur)) by (eapply noLF_incl; [apply rev_incl | exact L]).
    assert (Ln : noLF (@nil N)) by (unfold noLF; simpl; tauto).
    destruct skip as [|k].
    + destruct (re_newline prev (c :: s')) as [[|k]|] eqn:E.
      * exfalso. exact (re_newline_positive _ _ E).
      * destruct H as [H | H]; [subst p; exact L0 | eauto].
      * apply re_newline_None in E. eapply IH; [|exact H].
        unfold noLF in *. simpl. intros [F | F]; [congruence | tauto].
    + eauto.
Qed.

Lemma split_newline_noLF content p :
  In p (split re_newline content) -> noLF p.
Proof.
  unfold split. destruct content as [|c s'].
  - simpl. intros [H | []]. subst p. unfold noLF. simpl. tauto.
  - apply split_go_newline_noLF. unfold noLF. simpl. tauto.
Qed.

Lemma linesOf_noLF content : Forall noLF (linesOf content).
Proof.
  apply Forall_forall. intros l H. unfold linesOf in H.
  apply filter_In in H. destruct H as [H _].
  apply in_map_iff in H. destruct H as [p [E H]]. subst l.
  eapply noLF_incl; [apply trim_incl|].
  eapply split_newline_noLF. exact H.
Qed.

Lemma filter_map_length {A B : Type} (f : A -> B) (p : B -> bool) l :
  List.length (filter p (map f l)) =
  List.length (filter (fun x => p (f x)) l).
Proof.
  induction l as [|x l IH]; simpl; [reflexivity|].
  destruct (p (f x)); simpl; rewrite IH; reflexivity.
Qed.

Lemma linesOf_length content :
  List.length (linesOf content) = countNonBlank content.
Proof.
  exact (filter_map_length trim (fun l => negb (isEmpty l))
           (split re_newline content)).
Qed.

(** ** The lines of the table *)

Lemma splitLF_app a : forall cur rest,
  noLF a -> splitLF (a ++ LF :: rest) cur = (rev cur ++ a) :: splitLF rest [].
Proof.
  induction a as [|c a IH]; intros cur rest L; cbn [app splitLF].
  - rewrite N.eqb_refl, app_nil_r. reflexivity.
  - replace (c =? LF) with false.
    + rewrite IH.
      * simpl. rewrite <- app_assoc. reflexivity.
      * intros F. apply L. right. exact F.
    + symmetry. apply N.eqb_neq. intros F. apply L. left. exact F.
Qed.

Lemma splitLF_noLF a : forall cur,
  noLF a -> splitLF a cur = [rev cur ++ a].
Proof.
  induction a as [|c a IH]; intros cur L; cbn [splitLF].
  - rewrite app_nil_r. reflexivity.
  - replace (c =? LF) with false.
    + rewrite IH.
      * simpl. rewrite <- app_assoc. reflexivity.
      * intros F. apply L. right. exact F.
    + symmetry. apply N.eqb_neq. intros F. apply L. left. exact F.
Qed.

Lemma splitLF_join rows :
  Forall noLF rows ->
  splitLF (join [LF] rows) [] =
  match rows with [] => [[]] | _ :: _ => rows end.
Proof.
  induction rows as [|x rows IH]; intros F; [reflexivity|].
  inversion F as [|? ? Fx Fr]; subst. specialize (IH Fr).
  destruct rows as [|y rows].
  - simpl. apply splitLF_noLF. exact Fx.
  - change (join [LF] (x :: y :: rows)) with (x ++ LF :: join [LF] (y :: rows)).
    rewrite splitLF_app by exact Fx. rewrite IH. reflexivity.
Qed.

Lemma noLF_check s : forallb (fun c => negb (c =? LF)) s = true -> noLF s.
Proof.
  intros H F. rewrite forallb_forall in H. apply H in F.
  rewrite N.eqb_refl in F. discriminate.
Qed.

Lemma tableLines_table rows :
  Forall noLF rows ->
  tableLines (header ++ [LF] ++ sep ++ [LF] ++ join [LF] rows) =
  header :: sep :: match rows with [] => [[]] | _ :: _ => rows end.
Proof.
  intros F. unfold tableLines.
  change (header ++ [LF] ++ sep ++ [LF] ++ join [LF] rows)
    with (header ++ LF :: (sep ++ LF :: join [LF] rows)).
  rewrite splitLF_app by (apply noLF_check; reflexivity).
  rewrite splitLF_app by (apply noLF_check; reflexivity).
  rewrite splitLF_join by exact F. reflexivity.
Qed.

Lemma rows_wf lines rows :
  Forall noLF lines -> Forall2 outcome lines rows -> Forall filledRow rows.
Proof.
  intros L F. induction F as [|line r lines rows O F IH]; constructor;
    inversion L; subst; eauto using outcome_filledRow.
Qed.

Lemma rendered_noLF rows :
  Forall filledRow rows -> Forall noLF (map renderRow rows).
Proof.
  intros F. induction F as [|r rows W F IH]; simpl; constructor; auto.
  unfold filledRow in W. tauto.
Qed.

Lemma filter_rendered rows :
  filter (fun l => negb (isEmpty l)) (map renderRow rows) = map renderRow rows.
Proof.
  induction rows as [|r rows IH]; simpl; [reflexivity|].
  rewrite IH. reflexivity.
Qed.

(** What the formatter returns, for every input. *)
Lemma localFormatToTable_spec content :
  exists rows,
    localFormatToTable content =
      Ok (header ++ [LF] ++ sep ++ [LF] ++ join [LF] (map renderRow rows)) /\
    Forall2 outcome (linesOf content) rows /\
    Forall filledRow rows.
Proof.
  unfold localFormatToTable.
  destruct (forLines_spec (linesOf content) []) as [rows [E F]].
  exists rows. rewrite E. simpl. repeat split; auto.
  eapply rows_wf; [apply linesOf_noLF | exact F].
Qed.

(** ** The lines of the specification *)

(** C6: the line Classes from 8:00 AM to 3:30 PM splits at to into two
    parts that each hold a time; its row has the time 8:00 AM, an en dash,
    3:30 PM, and the activity Classes from, the first part without its time,
    trimmed and cleaned. *)
Theorem range_line_classes :
  split re_tillTo (js "Classes from 8:00 AM to 3:30 PM") =
    [js "Classes from 8:00 AM "; js " 3:30 PM"] /\
  cleanActivity (trim (replace_timeRegex (js "Classes from 8:00 AM "))) =
    js "Classes from" /\
  processLine (js "Classes from 8:00 AM to 3:30 PM") =
    Ok (mkRow (js "8:00 AM" ++ EN_DASH ++ js "3:30 PM") (js "Classes from") []).
Proof. repeat split; reflexivity. Qed.

(** C7, on the code: the row of Library till 5:20 PM - tabs! [2hrs]!!! has
    the notes 2hrs and an activity without exclamation marks, but the
    activity is taken from the line and not from the working text, so the
    bracketed fragment is still in it (and the dash before tabs, which is not
    at the end, stays). *)
Theorem library_line_keeps_bracket :
  processLine (js "Library till 5:20 PM - tabs! [2hrs]!!!") =
    Ok (mkRow (js "5:20 PM") (js "Library till - tabs [2hrs]") (js "2hrs")) /\
  workingText (js "Library till 5:20 PM - tabs! [2hrs]!!!") =
    js "Library till 5:20 PM - tabs! !!!" /\
  includes (js "Library till - tabs [2hrs]") (js "[2hrs]") = true.
Proof. repeat split; reflexivity. Qed.

(** C8, on the code: the time is searched in the line, not in the working
    text.  The working text of Gym [2 hrs] is Gym, which holds no time; the
    row nevertheless gets the time 2:00 PM, read inside the brackets, and the
    activity is the line without the match, brackets included.  In the
    same way the split at till or to is that of the line: in
    Gym [5 to 6] the two ends of the range are read inside the brackets. *)
Theorem time_is_searched_in_the_line :
  workingText (js "Gym [2 hrs]") = js "Gym" /\
  match_timeRegex (js "Gym") = None /\
  processLine (js "Gym [2 hrs]") =
    Ok (mkRow (js "2:00 PM") (js "Gym [hrs]") (js "2 hrs")) /\
  workingText (js "Gym [5 to 6]") = js "Gym" /\
  split re_tillTo (js "Gym") = [js "Gym"] /\
  processLine (js "Gym [5 to 6]") =
    Ok (mkRow (js "5:00 PM" ++ EN_DASH ++ js "6:00 PM") (js "Gym [") (js "5 to 6")).
Proof. repeat split; reflexivity. Qed.

(** A line of punctuation only still gives a row, with both absence markers
    and the dash of empty notes; an empty input gives the two header lines;
    lines end at LF or CR LF and blank ones are dropped. *)
Example punctuation_line :
  localFormatToTable (js "!!!") =
    Ok (header ++ [LF] ++ sep ++ [LF] ++
        js "| " ++ EM_DASH ++ js " | " ++ EM_DASH ++ js " | - |").
Proof. reflexivity. Qed.

Example empty_input :
  localFormatToTable [] = Ok (header ++ [LF] ++ sep ++ [LF]).
Proof. reflexivity. Qed.

Example crlf_lines :
  linesOf (js "a" ++ [13; 10] ++ js " b " ++ [10; 10] ++ js "c") =
    [js "a"; js "b"; js "c"].
Proof. reflexivity. Qed.

(** * Further properties of the local formatter *)

(** ** Line endings *)

Lemma split_newline_go content :
  split re_newline content = split_go re_newline None content [] 0.
Proof. destruct content; reflexivity. Qed.

Lemma split_go_newline_prev s : forall p q cur k,
  split_go re_newline p s cur k = split_go re_newline q s cur k.
Proof.
  induction s as [|c s IH]; intros p q cur k; [reflexivity|].
  cbn [split_go]. destruct k as [|k]; [|apply IH].
  change (re_newline p (c :: s)) with (re_newline q (c :: s)).
  destruct (re_newline q (c :: s)) as [[|n]|];
    try destruct (isEmpty cur); try f_equal; apply IH.
Qed.

Lemma re_newline_inside prev c s :
  c <> LF -> (c = 13 -> exists d s', s = d :: s' /\ d <> LF) \/ c <> 13 ->
  re_newline prev (c :: s) = None.
Proof.
  unfold re_newline, LF. intros H K.
  replace (c =? 10) with false by (symmetry; apply N.eqb_neq; exact H).
  destruct (c =? 13) eqn:E; [|reflexivity].
  apply N.eqb_eq in E. destruct K as [K | K]; [|congruence].
  destruct (K E) as [d [s' [Es Hd]]]. subst s.
  replace (d =? 10) with false by (symmetry; apply N.eqb_neq; exact Hd).
  reflexivity.
Qed.

(** A line that is followed by LF: the part read is the line, without its
    last code unit when that is a CR. *)
Lemma split_go_newline_line l : forall prev cur rest,
  noLF l ->
  exists p,
    split_go re_newline prev (l ++ LF :: rest) cur 0 =
      p :: split_go re_newline None rest [] 0 /\
    (p = rev cur ++ l \/ rev cur ++ l = p ++ [13]).
Proof.
  induction l as [|c l IH]; intros prev cur rest L.
  - exists (rev cur). split; [|left; rewrite app_nil_r; reflexivity].
    cbn [app split_go]. unfold re_newline, LF. cbn.
    f_equal. apply split_go_newline_prev.
  - assert (Hc : c <> LF) by (intros F; apply L; left; auto).
    assert (Ll : noLF l) by (intros F; apply L; right; exact F).
    destruct l as [|d l].
    + destruct (N.eq_dec c 13) as [E | E].
      * subst c. exists (rev cur). split; [|right; reflexivity].
        cbn [app split_go]. unfold re_newline, LF. cbn.
        f_equal. apply split_go_newline_prev.
      * cbn [app split_go].
        rewrite re_newline_inside by (auto; right; exact E).
        destruct (IH (Some c) (c :: cur) rest Ll) as [p [Ep Hp]].
        exists p. split; [exact Ep|].
        cbn [rev] in Hp. rewrite <- !app_assoc in Hp. exact Hp.
    + cbn [app split_go].
      rewrite re_newline_inside.
      * destruct (IH (Some c) (c :: cur) rest Ll) as [p [Ep Hp]].
        exists p. split; [exact Ep|].
        cbn [rev] in Hp. rewrite <- !app_assoc in Hp. exact Hp.
      * exact Hc.
      * left. intros _. exists d, (l ++ LF :: rest). split; [reflexivity|].
        intros F. apply Ll. left. auto.
Qed.

(** A line that is followed by CR LF is read as it is. *)
Lemma split_go_newline_line_crlf l : forall prev cur rest,
  noLF l ->
  split_go re_newline prev (l ++ 13 :: LF :: rest) cur 0 =
    (rev cur ++ l) :: split_go re_newline None rest [] 0.
Proof.
  induction l as [|c l IH]; intros prev cur rest L.
  - rewrite app_nil_r. cbn [app split_go]. unfold re_newline, LF. cbn.
    f_equal. apply split_go_newline_prev.
  - assert (Hc : c <> LF) by (intros F; apply L; left; auto).
    assert (Ll : noLF l) by (intros F; apply L; right; exact F).
    cbn [app split_go]. rewrite re_newline_inside.
    + rewrite IH by exact Ll. cbn [rev]. rewrite <- !app_assoc. reflexivity.
    + exact Hc.
    + left. intros _. destruct l as [|d l].
      * exists 13, (LF :: rest). split; [reflexivity | discriminate].
      * exists d, (l ++ 13 :: LF :: rest). split; [reflexivity|].
        intros F. apply Ll. left. auto.
Qed.

(** The last line is read as it is. *)
Lemma split_go_newline_last l : forall prev cur,
  noLF l -> split_go re_newline prev l cur 0 = [rev cur ++ l].
Proof.
  induction l as [|c l IH]; intros prev cur L.
  - rewrite app_nil_r. reflexivity.
  - assert (Hc : c <> LF) by (intros F; apply L; left; auto).
    assert (Ll : noLF l) by (intros F; apply L; right; exact F).
    cbn [split_go]. destruct (re_newline prev (c :: l)) as [n|] eqn:E.
    + exfalso. unfold re_newline, LF in E.
      replace (c =? 10) with false in E
        by (symmetry; apply N.eqb_neq; exact Hc).
      destruct (c =? 13); [|discriminate].
      destruct l as [|d l]; [discriminate|].
      replace (d =? 10) with false in E; [discriminate|].
      symmetry. apply N.eqb_neq. intros F. apply Ll. left. auto.
    + rewrite IH by exact Ll. cbn [rev]. rewrite <- !app_assoc. reflexivity.
Qed.

Lemma dropWhile_snoc_space p c :
  isSpace c = true ->
  dropWhile isSpace (p ++ [c]) =
  match dropWhile isSpace p with
  | [] => []
  | x :: r => (x :: r) ++ [c]
  end.
Proof.
  intros H. induction p as [|a p IH]; cbn [app dropWhile].
  - rewrite H. reflexivity.
  - destruct (isSpace a); [exact IH | reflexivity].
Qed.

Lemma trimEnd_snoc_space x c :
  isSpace c = true -> trimEnd (x ++ [c]) = trimEnd x.
Proof.
  intros H. unfold trimEnd. rewrite rev_app_distr. cbn [rev app dropWhile].
  rewrite H. reflexivity.
Qed.

Lemma trim_snoc_space p c : isSpace c = true -> trim (p ++ [c]) = trim p.
Proof.
  intros H. unfold trim, trimStart. rewrite (dropWhile_snoc_space p c H).
  destruct (dropWhile isSpace p); [reflexivity | apply trimEnd_snoc_space; exact H].
Qed.

Lemma pieces_LF ls : forall prev,
  ls <> [] -> Forall noLF ls ->
  exists ps,
    split_go re_newline prev (join [LF] ls) [] 0 = ps /\
    Forall2 (fun p l => p = l \/ l = p ++ [13]) ps ls.
Proof.
  induction ls as [|x ls IH]; intros prev N F; [congruence|].
  inversion F as [|? ? Fx Fl]; subst.
  destruct ls as [|y ls].
  - exists [x]. split; [apply (split_go_newline_last x prev [] Fx)|].
    constructor; [left; reflexivity | constructor].
  - change (join [LF] (x :: y :: ls)) with (x ++ LF :: join [LF] (y :: ls)).
    destruct (split_go_newline_line x prev [] (join [LF] (y :: ls)) Fx)
      as [p [Ep Hp]].
    destruct (IH None) as [ps [Eps Hps]]; [discriminate | exact Fl |].
    exists (p :: ps). rewrite Ep, Eps. split; [reflexivity|].
    constructor; [|exact Hps]. simpl in Hp. exact Hp.
Qed.

Lemma pieces_CRLF ls : forall prev,
  ls <> [] -> Forall noLF ls ->
  split_go re_newline prev (join [13; LF] ls) [] 0 = ls.
Proof.
  induction ls as [|x ls IH]; intros prev N F; [congruence|].
  inversion F as [|? ? Fx Fl]; subst.
  destruct ls as [|y ls].
  - apply (split_go_newline_last x prev [] Fx).
  - change (join [13; LF] (x :: y :: ls))
      with (x ++ 13 :: LF :: join [13; LF] (y :: ls)).
    rewrite split_go_newline_line_crlf by exact Fx.
    rewrite IH by (discriminate || exact Fl). reflexivity.
Qed.

Lemma map_trim_pieces ps ls :
  Forall2 (fun p l => p = l \/ l = p ++ [13]) ps ls ->
  map trim ps = map trim ls.
Proof.
  intros F. induction F as [|p l ps ls H F IH]; [reflexivity|].
  cbn [map]. rewrite IH. f_equal.
  destruct H as [H | H]; subst; [reflexivity|].
  symmetry. apply trim_snoc_space. reflexivity.
Qed.

(** X1: a document made of lines joined by LF and the same lines joined by
    CR LF are read as the same lines, each trimmed and the blank ones
    dropped, and so give the same table. *)
Theorem line_endings_agree (ls : list (list N)) :
  Forall noLF ls ->
  linesOf (join [LF] ls) =
    filter (fun l => negb (isEmpty l)) (map trim ls) /\
  linesOf (join [13; LF] ls) =
    filter (fun l => negb (isEmpty l)) (map trim ls) /\
  localFormatToTable (join [13; LF] ls) = localFormatToTable (join [LF] ls).
Proof.
  intros F.
  assert (A : linesOf (join [LF] ls) =
              filter (fun l => negb (isEmpty l)) (map trim ls)).
  { destruct ls as [|x ls]; [reflexivity|].
    unfold linesOf. rewrite split_newline_go.
    destruct (pieces_LF (x :: ls) None) as [ps [E H]];
      [discriminate | exact F |].
    rewrite E, (map_trim_pieces _ _ H). reflexivity. }
  assert (B : linesOf (join [13; LF] ls) =
              filter (fun l => negb (isEmpty l)) (map trim ls)).
  { destruct ls as [|x ls]; [reflexivity|].
    unfold linesOf. rewrite split_newline_go.
    rewrite pieces_CRLF by (discriminate || exact F). reflexivity. }
  repeat split; auto.
  unfold localFormatToTable. rewrite A, B. reflexivity.
Qed.

Lemma line_endings_agree_witness :
  linesOf (join [LF] [js "Awake at 7:30 "; js ""; js " Gym"]) =
    [js "Awake at 7:30"; js "Gym"] /\
  linesOf (join [13; LF] [js "Awake at 7:30 "; js ""; js " Gym"]) =
    [js "Awake at 7:30"; js "Gym"] /\
  localFormatToTable (join [13; LF] [js "Awake at 7:30 "; js ""; js " Gym"]) =
    localFormatToTable (join [LF] [js "Awake at 7:30 "; js ""; js " Gym"]).
Proof.
  apply (line_endings_agree [js "Awake at 7:30 "; js ""; js " Gym"]).
  repeat constructor; apply noLF_check; reflexivity.
Defined.

(** ** Lines without a digit *)

Lemma timeRegex_from_no_digit s : forall i prev,
  forallb (fun c => negb (isDigit c)) s = true ->
  timeRegex_from i prev s = None.
Proof.
  induction s as [|c s IH]; intros i prev H.
  - simpl. unfold timeRegex_at. destruct (wordBoundary prev []); reflexivity.
  - cbn [forallb] in H. apply andb_prop in H. destruct H as [Hc Hs].
    apply negb_true_iff in Hc. cbn [timeRegex_from].
    unfold timeRegex_at, re_hour. rewrite Hc.
    destruct (wordBoundary prev (c :: s)); apply IH; exact Hs.
Qed.

Lemma no_digit_incl (a b : list N) :
  incl a b ->
  forallb (fun c => negb (isDigit c)) b = true ->
  forallb (fun c => negb (isDigit c)) a = true.
Proof.
  intros I H. apply forallb_forall. intros x Hx.
  rewrite forallb_forall in H. apply H. apply I. exact Hx.
Qed.

(** X2: a line without a digit gets the absence marker as its time, and
    its activity is the cleaned working text (the absence marker when that is
    empty); in particular a line that holds till or to is not read as a
    range unless both of its parts hold a digit. *)
Theorem no_digit_no_time (line : list N) :
  forallb (fun c => negb (isDigit c)) line = true ->
  processLine line =
    Ok (mkRow EM_DASH (orDash (cleanActivity (workingText line)))
              (notesOf line)).
Proof.
  intros H. destruct (processLine_outcome line) as [r [E O]]. rewrite E.
  destruct O as [part0 part1 ms me start end_ Hs H0 H1 N0 N1
                | m t Hm Nt | Hm].
  - exfalso. unfold match_timeRegex in H0.
    rewrite timeRegex_from_no_digit in H0; [discriminate|].
    apply (no_digit_incl part0 line); [|exact H].
    apply split_incl with (re := re_tillTo). rewrite Hs. left. reflexivity.
  - exfalso. unfold match_timeRegex in Hm.
    rewrite timeRegex_from_no_digit in Hm; [discriminate | exact H].
  - reflexivity.
Qed.

Lemma no_digit_no_time_witness :
  processLine (js "Then went to mess") =
    Ok (mkRow EM_DASH
          (orDash (cleanActivity (workingText (js "Then went to mess"))))
          (notesOf (js "Then went to mess"))).
Proof.
  apply (no_digit_no_time (js "Then went to mess")). reflexivity.
Defined.

(** ** The activity cell *)

Lemma dropWhile_head p s c r : dropWhile p s = c :: r -> p c = false.
Proof.
  induction s as [|a s IH]; simpl; [discriminate|].
  destruct (p a) eqn:E; [exact IH|]. intros H. inversion H; subst. exact E.
Qed.

Lemma dropWhile_suffix p s : exists a, s = a ++ dropWhile p s.
Proof.
  induction s as [|c s [a IH]]; simpl.
  - exists []. reflexivity.
  - destruct (p c).
    + exists (c :: a). simpl. f_equal. exact IH.
    + exists []. reflexivity.
Qed.

Lemma trim_first s c r : trim s = c :: r -> isSpace c = false.
Proof.
  unfold trim, trimEnd, trimStart. intros H.
  destruct (dropWhile_suffix isSpace (rev (dropWhile isSpace s))) as [a E].
  apply (f_equal (@rev N)) in E. rewrite rev_involutive, rev_app_distr in E.
  rewrite H in E. simpl in E.
  apply (dropWhile_head isSpace s c (r ++ rev a)). exact E.
Qed.

Lemma trim_last s r c : trim s = r ++ [c] -> isSpace c = false.
Proof.
  unfold trim, trimEnd. intros H.
  apply (f_equal (@rev N)) in H. rewrite rev_involutive, rev_app_distr in H.
  simpl in H. eapply dropWhile_head. exact H.
Qed.

Lemma cleanActivity_no_bang a : ~ In 33 (cleanActivity a).
Proof.
  unfold cleanActivity, replace_bangs. intros H.
  apply trim_incl in H. apply replace_trailingDash_incl in H.
  apply filter_In in H. destruct H as [_ H]. discriminate.
Qed.

Lemma outcome_activity line r :
  outcome line r -> exists a, activity r = orDash (cleanActivity a).
Proof. intros O. destruct O; cbn [activity]; eauto. Qed.

(** X3: the activity cell of every row is not empty, holds no exclamation
    mark, and neither starts nor ends with white space. *)
Theorem activity_cell_clean (line : list N) :
  exists r,
    processLine line = Ok r /\
    activity r <> [] /\
    ~ In 33 (activity r) /\
    (forall c s, activity r = c :: s -> isSpace c = false) /\
    (forall s c, activity r = s ++ [c] -> isSpace c = false).
Proof.
  destruct (processLine_outcome line) as [r [E O]].
  exists r. split; [exact E|].
  destruct (outcome_activity line r O) as [a Ea]. rewrite Ea.
  split; [apply orDash_nonempty|]. unfold orDash.
  destruct (isEmpty (cleanActivity a)).
  - split; [|split].
    + simpl. intuition discriminate.
    + intros c s H. inversion H; subst. reflexivity.
    + intros s c H. destruct s as [|x [|y s]]; inversion H; subst. reflexivity.
  - split; [apply cleanActivity_no_bang|]. split.
    + intros c s H. eapply trim_first. exact H.
    + intros s c H. eapply trim_last. exact H.
Qed.

Lemma activity_cell_clean_witness :
  exists r,
    processLine (js "- Lunch at 1 - wow!!  ") = Ok r /\
    activity r <> [] /\
    ~ In 33 (activity r) /\
    (forall c s, activity r = c :: s -> isSpace c = false) /\
    (forall s c, activity r = s ++ [c] -> isSpace c = false).
Proof. exact (activity_cell_clean (js "- Lunch at 1 - wow!!  ")). Defined.

(** ** The notes *)

Lemma re_untilClose_sound s : forall g,
  re_untilClose s = Some g ->
  ~ In 93 g /\ forallb (fun c => negb (isLineTerminator c)) g = true /\
  exists post, s = g ++ 93 :: post.
Proof.
  induction s as [|c s IH]; intros g H; simpl in H; [discriminate|].
  destruct (c =? 93) eqn:E.
  - inversion H; subst. apply N.eqb_eq in E. subst c.
    repeat split; [simpl; tauto | exists s; reflexivity].
  - destruct (isLineTerminator c) eqn:T; [discriminate|].
    apply option_map_Some in H. destruct H as [g' [H Eg]]. subst g.
    destruct (IH g' H) as [A [B [post C]]].
    apply N.eqb_neq in E. repeat split.
    + simpl. intros [F | F]; [congruence | tauto].
    + cbn [forallb]. rewrite T, B. reflexivity.
    + exists post. simpl. f_equal. exact C.
Qed.

Lemma re_untilClose_complete g : forall post,
  ~ In 93 g -> forallb (fun c => negb (isLineTerminator c)) g = true ->
  re_untilClose (g ++ 93 :: post) = Some g.
Proof.
  induction g as [|c g IH]; intros post A B; [reflexivity|].
  cbn [forallb] in B. apply andb_prop in B. destruct B as [Bc Bg].
  apply negb_true_iff in Bc. cbn [app re_untilClose].
  replace (c =? 93) with false
    by (symmetry; apply N.eqb_neq; intros F; apply A; left; auto).
  rewrite Bc, IH; [reflexivity | | exact Bg].
  intros F. apply A. right. exact F.
Qed.

Lemma durationRegex_from_sound s : forall i d,
  durationRegex_from i s = Some d ->
  exists g, m1 d = Some g /\ m0 d = 91 :: g ++ [93] /\
            ~ In 93 g /\
            forallb (fun c => negb (isLineTerminator c)) g = true.
Proof.
  induction s as [|c s IH]; intros i d H; simpl in H; [discriminate|].
  destruct (c =? 91); [|eauto].
  destruct (re_untilClose s) as [g|] eqn:E; [|eauto].
  inversion H; subst. exists g. cbn [m1 m0].
  destruct (re_untilClose_sound s g E) as [A [B _]]. auto.
Qed.

Lemma durationRegex_from_first pre : forall i g post,
  ~ In 91 pre -> ~ In 93 g ->
  forallb (fun c => negb (isLineTerminator c)) g = true ->
  durationRegex_from i (pre ++ 91 :: g ++ 93 :: post) =
    Some (mkMatch (i + List.length pre) (91 :: g ++ [93]) (Some g) None None).
Proof.
  induction pre as [|c pre IH]; intros i g post P A B.
  - cbn [app durationRegex_from durationRegex_at]. cbn.
    rewrite re_untilClose_complete by assumption.
    rewrite PeanoNat.Nat.add_0_r. reflexivity.
  - cbn [app durationRegex_from durationRegex_at].
    replace (c =? 91) with false
      by (symmetry; apply N.eqb_neq; intros F; apply P; left; auto).
    rewrite IH; [|intros F; apply P; right; exact F | exact A | exact B].
    cbn [List.length]. rewrite PeanoNat.Nat.add_succ_r. reflexivity.
Qed.

Lemma durationRegex_from_none s : forall i,
  ~ In 91 s -> durationRegex_from i s = None.
Proof.
  induction s as [|c s IH]; intros i P; [reflexivity|].
  cbn [durationRegex_from durationRegex_at].
  replace (c =? 91) with false
    by (symmetry; apply N.eqb_neq; intros F; apply P; left; auto).
  apply IH. intros F. apply P. right. exact F.
Qed.

Lemma outcome_notes line r : outcome line r -> notes r = notesOf line.
Proof. intros O. destruct O; reflexivity. Qed.

(** X4: the notes of a row are the text between the first opening bracket
    and the closing bracket that follows it, as written (they are not
    trimmed).  The notes of any row hold no closing bracket and no line
    terminator, and a line without an opening bracket has empty notes, shown
    as a dash. *)
Theorem notes_from_first_brackets :
  (forall pre g post,
     ~ In 91 pre -> ~ In 93 g ->
     forallb (fun c => negb (isLineTerminator c)) g = true ->
     exists r, processLine (pre ++ 91 :: g ++ 93 :: post) = Ok r /\
               notes r = g) /\
  (forall line,
     exists r, processLine line = Ok r /\
               ~ In 93 (notes r) /\
               forallb (fun c => negb (isLineTerminator c)) (notes r) = true) /\
  (forall line,
     ~ In 91 line ->
     exists r, processLine line = Ok r /\ notes r = [] /\
               notesCell r = js "-").
Proof.
  split; [|split].
  - intros pre g post P A B.
    destruct (processLine_outcome (pre ++ 91 :: g ++ 93 :: post)) as [r [E O]].
    exists r. split; [exact E|]. rewrite (outcome_notes _ _ O).
    unfold notesOf, match_durationRegex.
    rewrite durationRegex_from_first by assumption. reflexivity.
  - intros line. destruct (processLine_outcome line) as [r [E O]].
    exists r. split; [exact E|]. rewrite (outcome_notes _ _ O).
    unfold notesOf, match_durationRegex.
    destruct (durationRegex_from 0 line) as [d|] eqn:D.
    + destruct (durationRegex_from_sound _ _ _ D) as [g [G1 [_ [A B]]]].
      rewrite G1. auto.
    + simpl. auto.
  - intros line P. destruct (processLine_outcome line) as [r [E O]].
    exists r. split; [exact E|]. unfold notesCell.
    rewrite (outcome_notes _ _ O).
    unfold notesOf, match_durationRegex.
    rewrite durationRegex_from_none by exact P. auto.
Qed.

Lemma notes_from_first_brackets_witness :
  exists r,
    processLine (js "Library " ++ 91 :: js " 2hrs " ++ 93 :: js "!") = Ok r /\
    notes r = js " 2hrs ".
Proof.
  apply (proj1 notes_from_first_brackets (js "Library ") (js " 2hrs ") (js "!")).
  - simpl. intuition discriminate.
  - simpl. intuition discriminate.
  - reflexivity.
Defined.

(** ** A meridiem that is written *)

(** X5: when the match holds a meridiem, it is kept, in capitals, if the
    hour read is at most 12, and replaced by PM if the hour read is above 12
    (13 am is shown as 1:00 PM); hour 0 is shown as 12 with the meridiem
    written; a match without minutes is shown with minutes 00. *)
Theorem written_meridiem_kept (s : list N) (m : RegExpMatch) (g : list N) :
  match_timeRegex s = Some m -> m3 m = Some g ->
  (g = js "am" \/ g = js "pm" \/ g = js "AM" \/ g = js "PM") /\
  exists h mi,
    hourOf m = Num h /\ minuteOf m = Num mi /\
    (m2 m = None -> mi = 0) /\
    normalizeTime (Some m) =
      Some (fmtTime (if h =? 0 then 12 else if 12 <? h then h - 12 else h) mi
              (if 12 <? h then js "PM" else toUpperCase g)).
Proof.
  intros H G. apply match_timeRegex_ok in H.
  assert (H3 : meridiemCapture_ok (m3 m) = true).
  { unfold timeMatch_ok in H. apply andb_prop in H. tauto. }
  split.
  - apply meridiemCapture_cases in H3. rewrite G in H3.
    destruct H3 as [F | [F | [F | [F | F]]]]; inversion F; auto.
  - destruct (normalizeTime_closed m H) as [h [mi [Hh [_ [Hm [_ [Z E]]]]]]].
    exists h, mi. repeat split; auto.
    rewrite E, G. reflexivity.
Qed.

Lemma written_meridiem_kept_witness :
  exists m, match_timeRegex (js "back by 13 am") = Some m /\
            m3 m = Some (js "am") /\
            normalizeTime (Some m) = Some (js "1:00 PM").
Proof.
  eexists. split; [reflexivity|]. split; [reflexivity|].
  destruct (written_meridiem_kept (js "back by 13 am") _ (js "am")
              eq_refl eq_refl) as [_ [h [mi [Hh [Hm [_ E]]]]]].
  inversion Hh; subst h. inversion Hm; subst mi. exact E.
Defined.

(** ** Ranges *)

Lemma digitsOfUint_digits u c : In c (digitsOfUint u) -> isDigit c = true.
Proof.
  induction u; simpl; intros F; try tauto;
    (destruct F as [F | F]; [subst c; reflexivity | auto]).
Qed.

Lemma canonicalTime_no_dash t : canonicalTime 87 99 t -> ~ In 0x2013 t.
Proof.
  intros [h [mi [mer [E [_ [B R]]]]]]. subst t. intros F.
  assert (Q : mi / 10 < 10) by (apply N.Div0.div_lt_upper_bound; lia).
  assert (W : mi mod 10 < 10) by (apply N.mod_lt; lia).
  apply in_app_or in F. destruct F as [F | F].
  - apply digitsOfUint_digits in F. discriminate.
  - destruct F as [F | F]; [discriminate|].
    destruct F as [F | [F | F]].
    + revert F Q. generalize (mi / 10). intros q F Q. lia.
    + revert F W. generalize (mi mod 10). intros q F W. lia.
    + destruct F as [F | F]; [discriminate|].
      destruct R; subst mer; simpl in F; intuition discriminate.
Qed.

Lemma processLine_range line part0 part1 ms me start end_ :
  split re_tillTo line = [part0; part1] ->
  match_timeRegex part0 = Some ms -> match_timeRegex part1 = Some me ->
  normalizeTime (Some ms) = Some start -> normalizeTime (Some me) = Some end_ ->
  processLine line =
    Ok (mkRow (start ++ EN_DASH ++ end_)
              (orDash (cleanActivity (trim (replace_timeRegex part0))))
              (notesOf line)).
Proof.
  intros Hs H0 H1 N0 N1. unfold processLine, detectRange.
  rewrite (tillTo_guard_holds line part0 part1 Hs), Hs, H0, H1, N0, N1.
  destruct (normalizeTime_Some ms) as [t0 [E0 [T0 _]]].
  destruct (normalizeTime_Some me) as [t1 [E1 [T1 _]]].
  assert (t0 = start) by congruence. assert (t1 = end_) by congruence.
  subst t0 t1. rewrite T0, T1. cbn [andb fst snd orEmpty].
  unfold detectSingle. rewrite app_dash_nonempty. cbn [bind fst snd].
  rewrite app_dash_nonempty. unfold notesOf, orDash.
  destruct (match_durationRegex line); reflexivity.
Qed.

(** X6: the time of a row is a range, two times joined by an en dash,
    exactly when the line splits in two at a single till or to and a time is
    found in each of the two parts.  Otherwise the range is given up and the
    row shows the first time of the whole line, or the absence marker. *)
Theorem range_iff_two_timed_parts (line : list N) :
  exists r,
    processLine line = Ok r /\
    (In 0x2013 (time r) <->
     exists part0 part1,
       split re_tillTo line = [part0; part1] /\
       match_timeRegex part0 <> None /\ match_timeRegex part1 <> None).
Proof.
  destruct (processLine_outcome line) as [r [E O]].
  exists r. split; [exact E|]. split.
  - intros I.
    destruct O as [part0 part1 ms me start end_ Hs H0 H1 N0 N1
                  | m t Hm Nt | Hm]; cbn [time] in I.
    + exists part0, part1. rewrite H0, H1.
      split; [exact Hs|]. split; discriminate.
    + exfalso. revert I. eapply canonicalTime_no_dash.
      eapply match_canonical; eassumption.
    + simpl in I. intuition discriminate.
  - intros [part0 [part1 [Hs [H0 H1]]]].
    destruct (match_timeRegex part0) as [ms|] eqn:M0; [|congruence].
    destruct (match_timeRegex part1) as [me|] eqn:M1; [|congruence].
    destruct (normalizeTime_Some ms) as [start [N0 _]].
    destruct (normalizeTime_Some me) as [end_ [N1 _]].
    rewrite (processLine_range line part0 part1 ms me start end_
               Hs M0 M1 N0 N1) in E.
    inversion E; subst r. cbn [time].
    apply in_or_app. right. left. reflexivity.
Qed.

Lemma range_iff_two_timed_parts_witness :
  exists r,
    processLine (js "Dinner 5:45 PM to 6:30 PM") = Ok r /\
    (In 0x2013 (time r) <->
     exists part0 part1,
       split re_tillTo (js "Dinner 5:45 PM to 6:30 PM") = [part0; part1] /\
       match_timeRegex part0 <> None /\ match_timeRegex part1 <> None).
Proof. exact (range_iff_two_timed_parts (js "Dinner 5:45 PM to 6:30 PM")). Defined.

(** ** The first match *)

Lemma re_meridiem_text last s t g :
  re_meridiem last s = Some (t, g) -> exists post, s = t ++ post.
Proof.
  unfold re_meridiem. intros H. apply orElse_Some in H.
  destruct H as [H | [_ H]].
  - destruct s as [|a [|b s']]; try discriminate.
    destruct (isMeridiem a b && wordBoundary (Some b) s'); inversion H; subst.
    exists s'. reflexivity.
  - destruct (wordBoundary last s); inversion H; subst. exists s. reflexivity.
Qed.

Lemma re_spaces_text s : forall last t g,
  re_spaces last s = Some (t, g) -> exists post, s = t ++ post.
Proof.
  induction s as [|c s' IH]; intros last t g H; rewrite re_spaces_eq in H;
    apply orElse_Some in H; destruct H as [H | [_ H]];
    try discriminate; eauto using re_meridiem_text.
  destruct (isSpace c); try discriminate.
  apply option_map_Some in H. destruct H as [[t' g'] [H E]].
  inversion E; subst. destruct (IH _ _ _ H) as [post P].
  exists post. simpl. f_equal. exact P.
Qed.

Lemma re_minutes_text last s t g2 g3 :
  re_minutes last s = Some (t, g2, g3) -> exists post, s = t ++ post.
Proof.
  unfold re_minutes. intros H. apply orElse_Some in H.
  destruct H as [H | [_ H]].
  - destruct s as [|c [|d1 [|d2 s']]]; try discriminate.
    destruct ((c =? 58) && isDigit d1 && isDigit d2); try discriminate.
    apply option_map_Some in H. destruct H as [[t' g'] [H E]].
    inversion E; subst. destruct (re_spaces_text _ _ _ _ H) as [post P].
    exists post. simpl. repeat f_equal. exact P.
  - apply option_map_Some in H. destruct H as [[t' g'] [H E]].
    inversion E; subst. eauto using re_spaces_text.
Qed.

Lemma re_hour_text s t g1 g2 g3 :
  re_hour s = Some (t, g1, g2, g3) ->
  exists tl post, t = g1 ++ tl /\ g1 <> [] /\ s = t ++ post.
Proof.
  unfold re_hour. destruct s as [|d1 s1]; try discriminate.
  destruct (isDigit d1); try discriminate.
  intros H. apply orElse_Some in H. destruct H as [H | [_ H]].
  - destruct s1 as [|d2 s2]; try discriminate.
    destruct (isDigit d2); try discriminate.
    apply option_map_Some in H. destruct H as [[[t' g2'] g3'] [H E]].
    inversion E; subst. destruct (re_minutes_text _ _ _ _ _ H) as [post P].
    exists t', post. simpl. repeat split; [discriminate|].
    repeat f_equal. exact P.
  - apply option_map_Some in H. destruct H as [[[t' g2'] g3'] [H E]].
    inversion E; subst. destruct (re_minutes_text _ _ _ _ _ H) as [post P].
    exists t', post. simpl. repeat split; [discriminate|].
    f_equal. exact P.
Qed.

Lemma timeRegex_from_first s : forall i prev m,
  timeRegex_from i prev s = Some m ->
  exists pre post g1 tl,
    s = pre ++ m0 m ++ post /\ index m = (i + List.length pre)%nat /\
    m1 m = Some g1 /\ g1 <> [] /\ m0 m = g1 ++ tl /\
    forall a b, pre = a ++ b -> b <> [] ->
                timeRegex_at (lastUnit prev a) (b ++ m0 m ++ post) = None.
Proof.
  induction s as [|c s' IH]; intros i prev m H; simpl in H.
  - destruct (timeRegex_at prev []) as [[[[t g1] g2] g3]|] eqn:E;
      try discriminate.
    unfold timeRegex_at in E. destruct (wordBoundary prev []); discriminate.
  - destruct (timeRegex_at prev (c :: s')) as [[[[t g1] g2] g3]|] eqn:E.
    + inversion H; subst. unfold timeRegex_at in E.
      destruct (wordBoundary prev (c :: s')); try discriminate.
      destruct (re_hour_text _ _ _ _ _ E) as [tl [post [T [G P]]]].
      exists [], post, g1, tl. cbn [m0 m1 index app List.length].
      rewrite PeanoNat.Nat.add_0_r. repeat split; auto.
      intros a b Hab Hb. destruct a; destruct b; try discriminate. congruence.
    + destruct (IH _ _ _ H) as [pre [post [g1 [tl [P [I [G1 [G [T L]]]]]]]]].
      exists (c :: pre), post, g1, tl. cbn [app List.length].
      rewrite PeanoNat.Nat.add_succ_r. repeat split; auto.
      * f_equal. exact P.
      * intros a b Hab Hb. destruct a as [|x a].
        -- simpl in Hab. subst b. cbn [lastUnit app]. rewrite <- P. exact E.
        -- inversion Hab; subst. cbn [lastUnit]. apply L; auto.
Qed.

Lemma firstn_length_app (a b : list N) : firstn (List.length a) (a ++ b) = a.
Proof. induction a; simpl; [reflexivity | f_equal; assumption]. Qed.

Lemma skipn_length_app (a b : list N) : skipn (List.length a) (a ++ b) = b.
Proof. induction a; simpl; [reflexivity | assumption]. Qed.

(** X7: a match of the time pattern is the first one from the left: the
    matched text stands in the string at the index of the match, it starts
    with the hour digits, no position before it matches, and replacing the
    pattern by the empty string removes exactly the matched text. *)
Theorem match_timeRegex_first (s : list N) (m : RegExpMatch) :
  match_timeRegex s = Some m ->
  exists pre post,
    s = pre ++ m0 m ++ post /\ index m = List.length pre /\
    (exists g1 tl, m1 m = Some g1 /\ g1 <> [] /\ m0 m = g1 ++ tl) /\
    replace_timeRegex s = pre ++ post /\
    (forall a b, pre = a ++ b -> b <> [] ->
                 timeRegex_at (lastUnit None a) (b ++ m0 m ++ post) = None).
Proof.
  intros H. pose proof H as H'. apply timeRegex_from_first in H.
  destruct H as [pre [post [g1 [tl [P [I [G1 [G [T L]]]]]]]]].
  exists pre, post. simpl in I. repeat split; eauto.
  unfold replace_timeRegex. rewrite H', I.
  rewrite <- length_app. rewrite P at 1 2.
  rewrite firstn_length_app. rewrite app_assoc, skipn_length_app. reflexivity.
Qed.

Lemma match_timeRegex_first_witness :
  exists m, match_timeRegex (js "a8 till 9 pm") = Some m /\
  exists pre post,
    js "a8 till 9 pm" = pre ++ m0 m ++ post /\ index m = List.length pre /\
    (exists g1 tl, m1 m = Some g1 /\ g1 <> [] /\ m0 m = g1 ++ tl) /\
    replace_timeRegex (js "a8 till 9 pm") = pre ++ post /\
    (forall a b, pre = a ++ b -> b <> [] ->
                 timeRegex_at (lastUnit None a) (b ++ m0 m ++ post) = None).
Proof.
  eexists. split; [reflexivity|].
  apply (match_timeRegex_first (js "a8 till 9 pm")). reflexivity.
Defined.

(** * Properties of the remote provider *)

(** ** One query *)

(** What a query does to the network: nothing, or one request, to the
    end point of the model with the encoded key. *)
Lemma queryGemini_net h st p net r net' :
  queryGemini h st p net = (r, net') ->
  slept net' = slept net /\
  (fetched net' = fetched net \/
   exists key,
     isEmpty (trim (apiKey st)) = false /\
     encodeURIComponent (trim (apiKey st)) = Some key /\
     fetched net' = fetched net ++ [mkRequest (endpointOf (model st) key) p]).
Proof.
  unfold queryGemini. destruct (isEmpty (trim (apiKey st))) eqn:K.
  - intros H. inversion H; subst. auto.
  - destruct (encodeURIComponent (trim (apiKey st))) as [key|] eqn:E.
    + intros H.
      assert (N : net' = mkNet (fetched net ++
                    [mkRequest (endpointOf (model st) key) p]) (slept net)).
      { destruct (server h _ _) as [m | status text body].
        - inversion H; reflexivity.
        - destruct (negb (ok status)).
          + destruct text; inversion H; reflexivity.
          + destruct body; inversion H; reflexivity. }
      subst net'. simpl. split; [reflexivity|]. right. exists key. auto.
    + intros H. inversion H; subst. auto.
Qed.

Lemma readData_fulfilled data t :
  readData data = Fulfilled t ->
  t <> [] /\
  (forall c s, t = c :: s -> isSpace c = false) /\
  (forall s c, t = s ++ [c] -> isSpace c = false).
Proof.
  unfold readData. destruct (truthyJ _); [discriminate|].
  destruct (optGet _ (js "parts")) as [[| | | | [|p ps] |]|]; try discriminate.
  set (x := join [] (map partText (p :: ps))).
  destruct (isEmpty (trim x)) eqn:E; [discriminate|].
  intros H. inversion H; subst. split; [|split].
  - intros F. rewrite F in E. discriminate.
  - intros c s. apply trim_first.
  - intros s c. apply trim_last.
Qed.

Lemma queryGemini_fulfilled_data h st p net t net' :
  queryGemini h st p net = (Fulfilled t, net') ->
  exists key status text data,
    encodeURIComponent (trim (apiKey st)) = Some key /\
    net' = mkNet (fetched net ++ [mkRequest (endpointOf (model st) key) p])
                 (slept net) /\
    server h (List.length (fetched net))
           (mkRequest (endpointOf (model st) key) p) =
      Response status text (Fulfilled data) /\
    ok status = true /\ readData data = Fulfilled t.
Proof.
  unfold queryGemini. destruct (isEmpty (trim (apiKey st))); [discriminate|].
  destruct (encodeURIComponent (trim (apiKey st))) as [key|]; [|discriminate].
  destruct (server h _ _) as [m | status text body] eqn:S; [discriminate|].
  destruct (ok status) eqn:O; cbn [negb].
  - destruct body as [data | m]; [|discriminate].
    intros H. inversion H. exists key, status, text, data. auto.
  - destruct text; discriminate.
Qed.

(** X8: a query that returns a text has sent exactly one request, to the
    end point of the model with the percent-encoded trimmed key and with the
    prompt; the response had a status from 200 to 299; and the text returned
    is not empty and neither starts nor ends with white space. *)
Theorem queryGemini_fulfilled h st p net t net' :
  queryGemini h st p net = (Fulfilled t, net') ->
  t <> [] /\
  (forall c s, t = c :: s -> isSpace c = false) /\
  (forall s c, t = s ++ [c] -> isSpace c = false) /\
  exists key status text data,
    encodeURIComponent (trim (apiKey st)) = Some key /\
    net' = mkNet (fetched net ++ [mkRequest (endpointOf (model st) key) p])
                 (slept net) /\
    server h (List.length (fetched net))
           (mkRequest (endpointOf (model st) key) p) =
      Response status text (Fulfilled data) /\
    inRange 200 299 status = true.
Proof.
  intros H.
  destruct (queryGemini_fulfilled_data _ _ _ _ _ _ H)
    as [key [status [text [data [E [N [S [O R]]]]]]]].
  destruct (readData_fulfilled data t R) as [A [B C]].
  repeat split; auto.
  exists key, status, text, data. auto.
Qed.

Lemma queryGemini_fulfilled_witness :
  queryGemini
    (hostOf (Response 200 (Fulfilled []) (Fulfilled (answerOf (js " | a | ")))))
    (keyed (js " k-1 ")) (js "p") (mkNet [] []) =
    (Fulfilled (js "| a |"),
     mkNet [mkRequest (endpointOf (js "gemini-1.5-flash") (js "k-1")) (js "p")] []) /\
  js "| a |" <> [].
Proof.
  split; [reflexivity|].
  apply (queryGemini_fulfilled
           (hostOf (Response 200 (Fulfilled []) (Fulfilled (answerOf (js " | a | ")))))
           (keyed (js " k-1 ")) (js "p") (mkNet [] []) (js "| a |")
           (mkNet [mkRequest (endpointOf (js "gemini-1.5-flash") (js "k-1"))
                             (js "p")] [])).
  reflexivity.
Defined.

(** ** The retries *)

Lemma retryLoop_spec h st p left : forall delay net r net',
  left <> 0%nat ->
  retryLoop h st p left delay net = (r, net') ->
  exists reqs k,
    fetched net' = fetched net ++ reqs /\
    slept net' = slept net ++ delays k delay /\
    (k < left)%nat /\ (List.length reqs <= k + 1)%nat /\
    (forall req, In req reqs ->
       exists key, encodeURIComponent (trim (apiKey st)) = Some key /\
                   req = mkRequest (endpointOf (model st) key) p) /\
    exists net0, queryGemini h st p net0 = (r, net').
Proof.
  induction left as [|left IH]; intros delay net r net' L H; [congruence|].
  cbn [retryLoop] in H.
  destruct (queryGemini h st p net) as [r1 net1] eqn:Q.
  destruct (queryGemini_net _ _ _ _ _ _ Q) as [S1 F1].
  assert (Base : r1 = r -> net1 = net' ->
    exists reqs k,
      fetched net' = fetched net ++ reqs /\
      slept net' = slept net ++ delays k delay /\
      (k < S left)%nat /\ (List.length reqs <= k + 1)%nat /\
      (forall req, In req reqs ->
         exists key, encodeURIComponent (trim (apiKey st)) = Some key /\
                     req = mkRequest (endpointOf (model st) key) p) /\
      exists net0, queryGemini h st p net0 = (r, net')).
  { intros E1 E2. subst r1 net1.
    destruct F1 as [F1 | [key [_ [E F1]]]].
    - exists [], 0%nat. rewrite !app_nil_r. simpl.
      repeat split; auto; try lia; try tauto. eauto.
    - exists [mkRequest (endpointOf (model st) key) p], 0%nat.
      rewrite app_nil_r. simpl. repeat split; auto; try lia.
      + intros req [R | []]. subst req. eauto.
      + eauto. }
  destruct r1 as [t | m].
  - inversion H; subst. apply Base; reflexivity.
  - destruct (test_transient m && Nat.ltb 1 (S left)) eqn:T.
    + apply andb_prop in T. destruct T as [_ T].
      apply PeanoNat.Nat.ltb_lt in T.
      apply IH in H; [|lia].
      destruct H as [reqs [k [A [B [C [D [E G]]]]]]]. simpl in A, B.
      rewrite S1, <- app_assoc in B.
      destruct F1 as [F1 | [key [_ [Ek F1]]]].
      * exists reqs, (S k). rewrite F1 in A. cbn [delays].
        repeat split; auto; lia.
      * exists (mkRequest (endpointOf (model st) key) p :: reqs), (S k).
        rewrite F1, <- app_assoc in A. cbn [delays].
        repeat split; auto; try (simpl; lia).
        intros req [R | R]; [subst req; eauto | auto].
    + inversion H; subst. apply Base; reflexivity.
Qed.

(** X9: a query with retries sends at most three requests, all of them
    the same, and waits 500 ms before the second and 1000 ms before the
    third, at most 1500 ms in all.  What it returns or throws is what its
    last attempt returned or threw: the throw that follows the loop is never
    reached. *)
Theorem retries_bounded h st p net r net' :
  queryGeminiWithRetry h st p net = (r, net') ->
  exists reqs sleeps,
    fetched net' = fetched net ++ reqs /\
    slept net' = slept net ++ sleeps /\
    (sleeps = [] \/ sleeps = [500] \/ sleeps = [500; 1000]) /\
    (List.length reqs <= List.length sleeps + 1)%nat /\
    (forall req, In req reqs ->
       exists key, encodeURIComponent (trim (apiKey st)) = Some key /\
                   req = mkRequest (endpointOf (model st) key) p) /\
    exists net0, queryGemini h st p net0 = (r, net').
Proof.
  intros H. apply retryLoop_spec in H; [|discriminate].
  destruct H as [reqs [k [A [B [C [D [E G]]]]]]].
  exists reqs, (delays k 500). repeat split; auto.
  - destruct k as [|[|[|k]]]; simpl; auto. lia.
  - destruct k as [|[|[|k]]]; simpl in *; lia.
Qed.

Lemma retries_bounded_witness :
  exists r net',
    queryGeminiWithRetry
      (hostOf (Response 503 (Fulfilled (js "busy")) (Rejected [])))
      (keyed (js "k")) (js "p") (mkNet [] []) = (r, net') /\
    exists reqs sleeps,
      fetched net' = [] ++ reqs /\ slept net' = [] ++ sleeps /\
      (sleeps = [] \/ sleeps = [500] \/ sleeps = [500; 1000]) /\
      (List.length reqs <= List.length sleeps + 1)%nat /\
      (forall req, In req reqs ->
         exists key, encodeURIComponent (trim (js "k")) = Some key /\
                     req = mkRequest (endpointOf (js "gemini-1.5-flash") key) (js "p")) /\
      exists net0,
        queryGemini (hostOf (Response 503 (Fulfilled (js "busy")) (Rejected [])))
                    (keyed (js "k")) (js "p") net0 = (r, net').
Proof.
  eexists. eexists. split; [reflexivity|].
  apply (retries_bounded
           (hostOf (Response 503 (Fulfilled (js "busy")) (Rejected [])))
           (keyed (js "k")) (js "p") (mkNet [] [])).
  reflexivity.
Defined.

Lemma transient_message status t :
  status = 429 \/ status = 503 ->
  test_transient (js "HTTP " ++ toString (Num status) ++ js ": " ++ t) = true.
Proof. intros [E | E]; subst status; reflexivity. Qed.

Lemma queryGemini_busy h st p key net :
  isEmpty (trim (apiKey st)) = false ->
  encodeURIComponent (trim (apiKey st)) = Some key ->
  (forall n req, exists status t b,
     server h n req = Response status (Fulfilled t) b /\
     (status = 429 \/ status = 503)) ->
  exists status t b,
    server h (List.length (fetched net))
           (mkRequest (endpointOf (model st) key) p) =
      Response status (Fulfilled t) b /\
    (status = 429 \/ status = 503) /\
    queryGemini h st p net =
      (Rejected (js "HTTP " ++ toString (Num status) ++ js ": " ++ t),
       mkNet (fetched net ++ [mkRequest (endpointOf (model st) key) p])
             (slept net)).
Proof.
  intros K E S. unfold queryGemini. rewrite K, E.
  destruct (S (List.length (fetched net))
              (mkRequest (endpointOf (model st) key) p))
    as [status [t [b [R C]]]].
  rewrite R. exists status, t, b. split; [reflexivity|]. split; [exact C|].
  destruct C; subst status; reflexivity.
Qed.

(** X10: when the key is set and the server answers every request with
    status 429 or 503, the query with retries sends three requests, waits
    500 ms and then 1000 ms, and throws the error of the third answer: HTTP,
    the status of the answer to the third request, and its text. *)
Theorem busy_server_three_attempts h st p key net :
  isEmpty (trim (apiKey st)) = false ->
  encodeURIComponent (trim (apiKey st)) = Some key ->
  (forall n req, exists status t b,
     server h n req = Response status (Fulfilled t) b /\
     (status = 429 \/ status = 503)) ->
  exists status t b,
    server h (List.length (fetched net) + 2)
           (mkRequest (endpointOf (model st) key) p) =
      Response status (Fulfilled t) b /\
    (status = 429 \/ status = 503) /\
    queryGeminiWithRetry h st p net =
      (Rejected (js "HTTP " ++ toString (Num status) ++ js ": " ++ t),
       mkNet (fetched net ++
              [mkRequest (endpointOf (model st) key) p;
               mkRequest (endpointOf (model st) key) p;
               mkRequest (endpointOf (model st) key) p])
             (slept net ++ [500; 1000])).
Proof.
  intros K E S. unfold queryGeminiWithRetry. cbn [retryLoop].
  destruct (queryGemini_busy h st p key net K E S)
    as [s1 [t1 [b1 [_ [C1 Q1]]]]].
  rewrite Q1, (transient_message s1 t1 C1). cbn [andb Nat.ltb Nat.leb fetched slept].
  destruct (queryGemini_busy h st p key
              (mkNet (fetched net ++ [mkRequest (endpointOf (model st) key) p])
                     (slept net ++ [500])) K E S)
    as [s2 [t2 [b2 [_ [C2 Q2]]]]].
  rewrite Q2, (transient_message s2 t2 C2). cbn [andb Nat.ltb Nat.leb fetched slept].
  destruct (queryGemini_busy h st p key
              (mkNet ((fetched net ++ [mkRequest (endpointOf (model st) key) p]) ++
                      [mkRequest (endpointOf (model st) key) p])
                     ((slept net ++ [500]) ++ [500 * 2])) K E S)
    as [s3 [t3 [b3 [R3 [C3 Q3]]]]].
  rewrite Q3, (transient_message s3 t3 C3). cbn [andb Nat.ltb Nat.leb fetched slept].
  exists s3, t3, b3. split; [|split; [exact C3|]].
  - cbn [fetched] in R3. rewrite !length_app in R3. cbn [List.length] in R3.
    rewrite <- PeanoNat.Nat.add_assoc in R3. exact R3.
  - rewrite <- !app_assoc. reflexivity.
Qed.

(** A server that answers 429 a, 429 b and from then on 503 c. *)
Lemma busy_server_three_attempts_witness :
  exists status t b,
    (match 0 + 2 with
     | 0 => Response 429 (Fulfilled (js "a")) (Rejected [])
     | 1 => Response 429 (Fulfilled (js "b")) (Rejected [])
     | _ => Response 503 (Fulfilled (js "c")) (Rejected [])
     end)%nat = Response status (Fulfilled t) b /\
    (status = 429 \/ status = 503) /\
    queryGeminiWithRetry
      (mkHost (fun n _ =>
                 match n with
                 | 0 => Response 429 (Fulfilled (js "a")) (Rejected [])
                 | 1 => Response 429 (Fulfilled (js "b")) (Rejected [])
                 | _ => Response 503 (Fulfilled (js "c")) (Rejected [])
                 end%nat)
              (js "URI malformed") (fun _ => js "TypeError"))
      (keyed (js "k")) (js "p") (mkNet [] []) =
      (Rejected (js "HTTP " ++ toString (Num status) ++ js ": " ++ t),
       mkNet ([] ++
              [mkRequest (endpointOf (js "gemini-1.5-flash") (js "k")) (js "p");
               mkRequest (endpointOf (js "gemini-1.5-flash") (js "k")) (js "p");
               mkRequest (endpointOf (js "gemini-1.5-flash") (js "k")) (js "p")])
             ([] ++ [500; 1000])).
Proof.
  apply (busy_server_three_attempts
           (mkHost (fun n _ =>
                      match n with
                      | 0 => Response 429 (Fulfilled (js "a")) (Rejected [])
                      | 1 => Response 429 (Fulfilled (js "b")) (Rejected [])
                      | _ => Response 503 (Fulfilled (js "c")) (Rejected [])
                      end%nat)
                   (js "URI malformed") (fun _ => js "TypeError"))
           (keyed (js "k")) (js "p") (js "k") (mkNet [] [])).
  - reflexivity.
  - reflexivity.
  - intros n req. destruct n as [|[|n]]; simpl; eauto 6.
Defined.

(** X11: an error whose message does not name HTTP 429 or HTTP 503 is not
    tried again: the first attempt is the only one and nothing is waited
    for.  So it is with a blank key, for which nothing is sent at all, and
    with a response of status 200 to 299 that holds no parts or only empty
    text. *)
Theorem other_errors_not_retried :
  (forall h st p net m net1,
     queryGemini h st p net = (Rejected m, net1) ->
     test_transient m = false ->
     queryGeminiWithRetry h st p net = (Rejected m, net1) /\
     slept net1 = slept net) /\
  (forall h st p net,
     isEmpty (trim (apiKey st)) = true ->
     queryGeminiWithRetry h st p net = (Rejected missingKeyMessage, net)) /\
  test_transient (js "No content returned") = false /\
  test_transient (js "Empty text result") = false.
Proof.
  split; [|split; [|split; reflexivity]].
  - intros h st p net m net1 Q T.
    unfold queryGeminiWithRetry. cbn [retryLoop]. rewrite Q, T.
    split; [reflexivity|].
    apply queryGemini_net in Q. tauto.
  - intros h st p net K.
    unfold queryGeminiWithRetry. cbn [retryLoop].
    unfold queryGemini. rewrite K. reflexivity.
Qed.

Lemma other_errors_not_retried_witness :
  queryGeminiWithRetry
    (hostOf (Response 200 (Fulfilled []) (Fulfilled (JObject []))))
    (keyed (js "k")) (js "p") (mkNet [] []) =
    (Rejected (js "No content returned"),
     mkNet [mkRequest (endpointOf (js "gemini-1.5-flash") (js "k")) (js "p")] []) /\
  queryGeminiWithRetry
    (hostOf (FetchFailed (js "Failed to fetch")))
    (keyed (js "   ")) (js "p") (mkNet [] []) =
    (Rejected missingKeyMessage, mkNet [] []).
Proof.
  split.
  - apply (proj1 other_errors_not_retried
             (hostOf (Response 200 (Fulfilled []) (Fulfilled (JObject []))))
             (keyed (js "k")) (js "p") (mkNet [] [])); reflexivity.
  - apply (proj1 (proj2 other_errors_not_retried)
             (hostOf (FetchFailed (js "Failed to fetch")))
             (keyed (js "   ")) (js "p") (mkNet [] [])). reflexivity.
Defined.

(** ** The key in the URL *)

Lemma hexDigit_safe n : n < 16 -> isUnreserved (hexDigit n) = true.
Proof.
  intros H.
  assert (A : forallb (fun k => isUnreserved (hexDigit (N.of_nat k)))
                      (seq 0 16) = true) by reflexivity.
  rewrite forallb_forall in A. rewrite <- (N2Nat.id n).
  apply A. apply in_seq. lia.
Qed.

Lemma percent_safe b c :
  b < 256 -> In c (percent b) -> isUnreserved c = true \/ c = 37.
Proof.
  intros H [F | [F | [F | []]]]; subst c; auto; left; apply hexDigit_safe.
  - apply N.Div0.div_lt_upper_bound. lia.
  - apply N.mod_lt. lia.
Qed.

Lemma utf8_octets cp b : cp < 0x110000 -> In b (utf8 cp) -> b < 256.
Proof.
  intros H. unfold utf8.
  assert (M : cp mod 64 < 64) by (apply N.mod_lt; lia).
  assert (M2 : (cp / 64) mod 64 < 64) by (apply N.mod_lt; lia).
  assert (M3 : (cp / 4096) mod 64 < 64) by (apply N.mod_lt; lia).
  assert (D3 : cp / 262144 < 5) by (apply N.Div0.div_lt_upper_bound; lia).
  destruct (cp <? 0x80) eqn:E1.
  - apply N.ltb_lt in E1. intros [F | []]. lia.
  - destruct (cp <? 0x800) eqn:E2.
    + apply N.ltb_lt in E2.
      assert (D : cp / 64 < 32) by (apply N.Div0.div_lt_upper_bound; lia).
      intros [F | [F | []]]; lia.
    + destruct (cp <? 0x10000) eqn:E3.
      * apply N.ltb_lt in E3.
        assert (D : cp / 4096 < 16) by (apply N.Div0.div_lt_upper_bound; lia).
        intros [F | [F | [F | []]]]; lia.
      * intros [F | [F | [F | [F | []]]]]; lia.
Qed.

Lemma escaped_safe cp c :
  cp < 0x110000 -> In c (flat_map percent (utf8 cp)) ->
  isUnreserved c = true \/ c = 37.
Proof.
  intros H I. apply in_flat_map in I. destruct I as [b [Ib Ic]].
  eapply percent_safe; [|exact Ic]. eapply utf8_octets; eassumption.
Qed.

Lemma encodeURIComponent_alphabet n : forall s e,
  (List.length s <= n)%nat ->
  Forall (fun c => c < 0x10000) s ->
  encodeURIComponent s = Some e ->
  forall c, In c e -> isUnreserved c = true \/ c = 37.
Proof.
  induction n as [|n IH]; intros s e L W H c I.
  - destruct s; [|simpl in L; lia]. inversion H; subst. destruct I.
  - destruct s as [|a rest]; [inversion H; subst; destruct I|].
    inversion W as [|? ? Wa Wr]; subst. simpl in L. cbn [encodeURIComponent] in H.
    destruct (isUnreserved a) eqn:U.
    + apply option_map_Some in H. destruct H as [e' [H E]]. subst e.
      destruct I as [I | I]; [subst c; auto|].
      apply (IH rest e'); auto. lia.
    + destruct (inRange 0xDC00 0xDFFF a); [discriminate|].
      destruct (inRange 0xD800 0xDBFF a) eqn:Hi.
      * destruct rest as [|d rest']; [discriminate|].
        destruct (inRange 0xDC00 0xDFFF d) eqn:Lo; [|discriminate].
        apply option_map_Some in H. destruct H as [e' [H E]]. subst e.
        apply in_app_or in I. destruct I as [I | I].
        -- eapply escaped_safe; [|exact I].
           unfold inRange in Hi, Lo.
           apply andb_prop in Hi. apply andb_prop in Lo.
           destruct Hi as [H1 H2]. destruct Lo as [L1 L2].
           apply N.leb_le in H1, H2, L1, L2. lia.
        -- inversion Wr; subst. apply (IH rest' e'); auto. simpl in L. lia.
      * apply option_map_Some in H. destruct H as [e' [H E]]. subst e.
        apply in_app_or in I. destruct I as [I | I].
        -- eapply escaped_safe; [|exact I]. lia.
        -- apply (IH rest e'); auto. lia.
Qed.

Lemma encodeURIComponent_plain s :
  forallb isUnreserved s = true -> encodeURIComponent s = Some s.
Proof.
  induction s as [|c s IH]; intros H; [reflexivity|].
  cbn [forallb] in H. apply andb_prop in H. destruct H as [Hc Hs].
  cbn [encodeURIComponent]. rewrite Hc, (IH Hs). reflexivity.
Qed.

Lemma encodeURIComponent_defined s :
  forallb (fun c => negb (inRange 0xD800 0xDFFF c)) s = true ->
  encodeURIComponent s <> None.
Proof.
  induction s as [|c s IH]; intros H; [discriminate|].
  cbn [forallb] in H. apply andb_prop in H. destruct H as [Hc Hs].
  apply negb_true_iff in Hc. specialize (IH Hs).
  cbn [encodeURIComponent].
  assert (A : inRange 0xDC00 0xDFFF c = false /\ inRange 0xD800 0xDBFF c = false).
  { unfold inRange in *. apply andb_false_iff in Hc.
    split; apply andb_false_iff;
      destruct Hc as [Hc | Hc]; apply N.leb_gt in Hc;
      try (left; apply N.leb_gt; lia); try (right; apply N.leb_gt; lia). }
  destruct A as [A1 A2]. rewrite A1, A2.
  destruct (encodeURIComponent s); [|congruence].
  destruct (isUnreserved c); discriminate.
Qed.

(** X12: the key is put in the URL of a request trimmed and
    percent-encoded: what follows key= holds only letters, digits, the
    marks - _ . ! ~ * ' ( ) and percent signs, so that a key cannot add a
    parameter or a fragment to the URL, and a key made of such letters,
    digits and marks stands there as it is.  A key that cannot be encoded
    (it holds a surrogate without its partner) makes the query throw the
    URIError before anything is sent. *)
Theorem key_is_percent_encoded h st p net r net' :
  Forall (fun c => c < 0x10000) (apiKey st) ->
  queryGemini h st p net = (r, net') ->
  (fetched net' = fetched net \/
   exists key,
     fetched net' = fetched net ++ [mkRequest (endpointOf (model st) key) p] /\
     encodeURIComponent (trim (apiKey st)) = Some key /\
     (forall c, In c key -> isUnreserved c = true \/ c = 37) /\
     (forallb isUnreserved (trim (apiKey st)) = true ->
      key = trim (apiKey st))) /\
  (isEmpty (trim (apiKey st)) = false ->
   encodeURIComponent (trim (apiKey st)) = None ->
   r = Rejected (uriErrorMessage h) /\ net' = net).
Proof.
  intros W Q. split.
  - destruct (queryGemini_net _ _ _ _ _ _ Q) as [_ [F | [key [_ [E F]]]]];
      [left; exact F | right].
    exists key. repeat split; auto.
    + intros c I.
      apply (encodeURIComponent_alphabet (List.length (trim (apiKey st)))
               (trim (apiKey st)) key); auto.
      apply Forall_forall. intros x Hx. rewrite Forall_forall in W.
      apply W. apply trim_incl. exact Hx.
    + intros U. rewrite (encodeURIComponent_plain _ U) in E. congruence.
  - intros K E. unfold queryGemini in Q. rewrite K, E in Q.
    inversion Q. auto.
Qed.

Lemma key_is_percent_encoded_witness :
  exists r net',
    queryGemini (hostOf (FetchFailed (js "Failed to fetch")))
      (keyed (js " a&b=" ++ [0xE9; 0xD83E; 0xDDFE])) (js "p") (mkNet [] []) =
      (r, net') /\
    fetched net' =
      [mkRequest (endpointOf (js "gemini-1.5-flash")
                    (js "a%26b%3D%C3%A9%F0%9F%A7%BE")) (js "p")].
Proof.
  eexists. eexists. split; [reflexivity|].
  destruct (key_is_percent_encoded
              (hostOf (FetchFailed (js "Failed to fetch")))
              (keyed (js " a&b=" ++ [0xE9; 0xD83E; 0xDDFE])) (js "p")
              (mkNet [] []) _ _ ltac:(repeat constructor) eq_refl)
    as [[F | [key [F _]]] _]; [discriminate F | reflexivity].
Defined.

(** * Properties of the command *)

(** ** A note that is not blank has a line *)

Lemma trim_cons_space c s : isSpace c = true -> trim (c :: s) = trim s.
Proof.
  intros H. unfold trim, trimStart. cbn [dropWhile]. rewrite H. reflexivity.
Qed.

Lemma trim_nonempty_unit s :
  trim s <> [] -> exists c, In c s /\ isSpace c = false.
Proof.
  induction s as [|c s IH]; intros H; [exfalso; apply H; reflexivity|].
  destruct (isSpace c) eqn:E.
  - rewrite trim_cons_space in H by exact E.
    destruct (IH H) as [x [I X]]. exists x. split; [right; exact I | exact X].
  - exists c. split; [left; reflexivity | exact E].
Qed.

Lemma dropWhile_keeps s c :
  In c s -> isSpace c = false -> In c (dropWhile isSpace s).
Proof.
  induction s as [|a s IH]; intros I H; [destruct I|].
  cbn [dropWhile]. destruct (isSpace a) eqn:E; [|exact I].
  destruct I as [I | I]; [congruence | auto].
Qed.

Lemma trim_keeps s c : In c s -> isSpace c = false -> In c (trim s).
Proof.
  intros I H. unfold trim, trimEnd, trimStart.
  apply in_rev. rewrite rev_involutive.
  apply dropWhile_keeps; [|exact H].
  apply -> in_rev. apply dropWhile_keeps; assumption.
Qed.

Lemma re_newline_Some prev c s n :
  re_newline prev (c :: s) = Some n ->
  isSpace c = true /\
  (n = 1%nat \/ (n = 2%nat /\ exists s', s = LF :: s')).
Proof.
  unfold re_newline. intros H. apply orElse_Some in H.
  destruct H as [H | [_ H]].
  - destruct (c =? 13) eqn:E; [|discriminate]. apply N.eqb_eq in E. subst c.
    destruct s as [|d s']; [discriminate|].
    destruct (d =? 10) eqn:D; [|discriminate]. apply N.eqb_eq in D. subst d.
    inversion H. split; [reflexivity|]. right. split; [reflexivity|].
    exists s'. reflexivity.
  - destruct (c =? 10) eqn:E; [|discriminate]. apply N.eqb_eq in E. subst c.
    inversion H. split; [reflexivity | left; reflexivity].
Qed.

(** A code unit that is not white space is in one of the lines. *)
Lemma split_go_newline_covers c s : forall prev cur skip,
  isSpace c = false ->
  skip = 0%nat \/ (skip = 1%nat /\ exists s', s = LF :: s') ->
  In c cur \/ In c s ->
  exists p, In p (split_go re_newline prev s cur skip) /\ In c p.
Proof.
  induction s as [|a s IH]; intros prev cur skip H K I.
  - exists (rev cur). split; [left; reflexivity|].
    destruct I as [I | []]. apply -> in_rev. exact I.
  - cbn [split_go]. destruct skip as [|k].
    + destruct (re_newline prev (a :: s)) as [[|n]|] eqn:E.
      * exfalso. exact (re_newline_positive _ _ E).
      * destruct (re_newline_Some _ _ _ _ E) as [Sa Kn].
        destruct I as [I | I].
        -- exists (rev cur). split; [left; reflexivity|].
           apply -> in_rev. exact I.
        -- destruct I as [I | I]; [congruence|].
           assert (K' : n = 0%nat \/ (n = 1%nat /\ exists s', s = LF :: s')).
           { destruct Kn as [Kn | [Kn S']]; inversion Kn; auto. }
           destruct (IH (Some a) [] n H K' (or_intror I)) as [p [Ip Ic]].
           exists p. split; [right; exact Ip | exact Ic].
      * assert (I' : In c (a :: cur) \/ In c s).
        { destruct I as [I | [I | I]]; [left; right | left; left | right];
            assumption. }
        destruct (IH (Some a) (a :: cur) 0%nat H (or_introl eq_refl) I')
          as [p [Ip Ic]].
        eauto.
    + destruct K as [K | [K [s' S']]]; [discriminate|].
      inversion K; subst k. inversion S'; subst a s'.
      assert (I' : In c cur \/ In c s).
      { destruct I as [I | [I | I]]; auto. subst c. discriminate. }
      destruct (IH (Some LF) cur 0%nat H (or_introl eq_refl) I')
        as [p [Ip Ic]].
      eauto.
Qed.

Lemma linesOf_nonempty content : trim content <> [] -> linesOf content <> [].
Proof.
  intros H. destruct (trim_nonempty_unit content H) as [c [I S]].
  destruct (split_go_newline_covers c content None [] 0%nat S) as [p [Ip Ic]];
    auto.
  rewrite <- split_newline_go in Ip.
  assert (In (trim p) (linesOf content)).
  { unfold linesOf. apply filter_In. split.
    - apply in_map. exact Ip.
    - pose proof (trim_keeps p c Ic S) as T.
      destruct (trim p); [destruct T | reflexivity]. }
  intros F. rewrite F in H0. destruct H0.
Qed.

(** ** What the command does to the note *)

Lemma blank_check content :
  isEmpty content || Nat.eqb (List.length (trim content)) 0 =
  isEmpty (trim content).
Proof.
  destruct content as [|c s]; [reflexivity|]. cbn [isEmpty orb].
  destruct (trim (c :: s)); reflexivity.
Qed.

Lemma failed_is_not_inserted m :
  js "Summary failed: " ++ m <> js "Daily summary inserted".
Proof. discriminate. Qed.

(** X13: the command shows one notice, and changes the vault only when
    that notice is Daily summary inserted: the text of the open file is then
    what it was, followed by the header and the summary, and every other
    file is as it was.  With any other notice nothing is changed. *)
Theorem generateSummary_appends h st app net notices app' net' :
  generateSummary h st app net = (notices, app', net') ->
  activeView app' = activeView app /\
  exists notice,
    notices = [notice] /\
    ((notice = js "Daily summary inserted" /\
      exists f summary,
        activeView app = Some (mkView (Some f)) /\
        vault app' f =
          vault app f ++ summaryHeader (addHeader st) ++ summary /\
        forall g, g <> f -> vault app' g = vault app g) \/
     (notice <> js "Daily summary inserted" /\ app' = app)).
Proof.
  unfold generateSummary.
  destruct (activeView app) as [[[f|]]|] eqn:V; cbn [file].
  - destruct (isEmpty (vault app f) || _).
    + intros H. inversion H; subst. split; [exact V|].
      eexists. split; [reflexivity|]. right. split; [discriminate | reflexivity].
    + destruct (summarize h st (vault app f) net) as [[summary | m] net1].
      * intros H. inversion H; subst. split; [simpl; exact V|].
        eexists. split; [reflexivity|]. left. split; [reflexivity|].
        exists f, summary. split; [reflexivity|]. cbn [modify vault].
        rewrite PeanoNat.Nat.eqb_refl. split; [reflexivity|].
        intros g G. apply PeanoNat.Nat.eqb_neq in G. rewrite G. reflexivity.
      * intros H. inversion H; subst. split; [exact V|].
        eexists. split; [reflexivity|]. right.
        split; [apply failed_is_not_inserted | reflexivity].
  - intros H. inversion H; subst. split; [exact V|].
    eexists. split; [reflexivity|]. right. split; [discriminate | reflexivity].
  - intros H. inversion H; subst. split; [exact V|].
    eexists. split; [reflexivity|]. right. split; [discriminate | reflexivity].
Qed.

Lemma summarize_local h st content net :
  provider st = local \/ isEmpty (trim (apiKey st)) = true ->
  exists rows,
    Forall2 outcome (linesOf content) rows /\
    summarize h st content net =
      (Fulfilled (header ++ [LF] ++ sep ++ [LF] ++
                  join [LF] (map renderRow rows)), net).
Proof.
  intros L. destruct (localFormatToTable_spec content) as [rows [E [F _]]].
  exists rows. split; [exact F|]. unfold summarize. rewrite E.
  destruct L as [L | L]; rewrite L.
  - reflexivity.
  - destruct (provider st); reflexivity.
Qed.

(** X14: with the local provider, or with a blank key whatever the
    provider, the command sends nothing over the network and never fails:
    for a note that is blank it only says so, and for any other note it
    appends the header and the table of the note, which has at least one
    row. *)
Theorem local_mode_always_inserts h st app net f :
  activeView app = Some (mkView (Some f)) ->
  provider st = local \/ isEmpty (trim (apiKey st)) = true ->
  (trim (vault app f) = [] ->
   generateSummary h st app net = ([js "Note is empty"], app, net)) /\
  (trim (vault app f) <> [] ->
   exists rows,
     rows <> [] /\ Forall2 outcome (linesOf (vault app f)) rows /\
     generateSummary h st app net =
       ([js "Daily summary inserted"],
        modify app f
          (vault app f ++ summaryHeader (addHeader st) ++
           header ++ [LF] ++ sep ++ [LF] ++ join [LF] (map renderRow rows)),
        net)).
Proof.
  intros V L. unfold generateSummary. rewrite V. cbn [file].
  rewrite blank_check. split; intros B.
  - rewrite B. reflexivity.
  - destruct (summarize_local h st (vault app f) net L) as [rows [F E]].
    exists rows. split; [|split; [exact F|]].
    + intros R. subst rows. inversion F as [E0|].
      apply (linesOf_nonempty _ B). symmetry. exact E0.
    + rewrite E. destruct (trim (vault app f)); [congruence | reflexivity].
Qed.

Lemma local_mode_always_inserts_witness :
  exists rows,
    rows <> [] /\ Forall2 outcome (linesOf (js "Awake at 7:30")) rows /\
    generateSummary (hostOf (FetchFailed [])) DEFAULT_SETTINGS
      (mkApp (Some (mkView (Some 0%nat))) (fun _ => js "Awake at 7:30"))
      (mkNet [] []) =
      ([js "Daily summary inserted"],
       modify (mkApp (Some (mkView (Some 0%nat))) (fun _ => js "Awake at 7:30"))
         0%nat
         (js "Awake at 7:30" ++ summaryHeader true ++
          header ++ [LF] ++ sep ++ [LF] ++ join [LF] (map renderRow rows)),
       mkNet [] []).
Proof.
  apply (proj2 (local_mode_always_inserts (hostOf (FetchFailed []))
                  DEFAULT_SETTINGS
                  (mkApp (Some (mkView (Some 0%nat))) (fun _ => js "Awake at 7:30"))
                  (mkNet [] []) 0%nat eq_refl (or_introl eq_refl))).
  discriminate.
Defined.

Lemma generateSummary_appends_witness :
  exists notices app' net',
    generateSummary (hostOf (FetchFailed (js "Failed to fetch")))
      (keyed (js "k"))
      (mkApp (Some (mkView (Some 0%nat))) (fun _ => js "Awake at 7:30"))
      (mkNet [] []) = (notices, app', net') /\
    exists notice,
      notices = [notice] /\ notice <> js "Daily summary inserted" /\
      app' = mkApp (Some (mkView (Some 0%nat))) (fun _ => js "Awake at 7:30").
Proof.
  eexists. eexists. eexists. split; [reflexivity|].
  destruct (generateSummary_appends
              (hostOf (FetchFailed (js "Failed to fetch"))) (keyed (js "k"))
              (mkApp (Some (mkView (Some 0%nat))) (fun _ => js "Awake at 7:30"))
              (mkNet [] []) _ _ _ eq_refl) as [_ [notice [N _]]].
  exists notice. split; [exact N|]. inversion N. split; [discriminate | reflexivity].
Defined.

(** X15: with the remote provider and a key that is not blank, the command
    on a note that is not blank sends at most three requests, each with the
    prompt built from the whole note.  The note is changed only when a query
    succeeds: the summary appended is then the text returned, which is not
    empty and neither starts nor ends with white space.  When the queries
    fail the notice is Summary failed: followed by the message of the last
    error, and the note is as it was. *)
Theorem remote_mode_appends_or_reports h st app net f notices app' net' :
  activeView app = Some (mkView (Some f)) ->
  provider st = gemini ->
  isEmpty (trim (apiKey st)) = false ->
  trim (vault app f) <> [] ->
  generateSummary h st app net = (notices, app', net') ->
  (exists reqs,
     fetched net' = fetched net ++ reqs /\ (List.length reqs <= 3)%nat /\
     forall req, In req reqs -> prompt req = buildPrompt (vault app f)) /\
  ((exists summary,
      notices = [js "Daily summary inserted"] /\
      app' = modify app f
               (vault app f ++ summaryHeader (addHeader st) ++ summary) /\
      summary <> [] /\
      (forall c s, summary = c :: s -> isSpace c = false) /\
      (forall s c, summary = s ++ [c] -> isSpace c = false)) \/
   (exists m, notices = [js "Summary failed: " ++ m] /\ app' = app)).
Proof.
  intros V P K B. unfold generateSummary. rewrite V. cbn [file].
  rewrite blank_check.
  replace (isEmpty (trim (vault app f))) with false
    by (destruct (trim (vault app f)); [congruence | reflexivity]).
  unfold summarize. rewrite P, K.
  destruct (queryGeminiWithRetry h st (buildPrompt (vault app f)) net)
    as [r net1] eqn:Q.
  pose proof Q as Q'. unfold queryGeminiWithRetry in Q'.
  apply retryLoop_spec in Q'; [|discriminate].
  destruct Q' as [reqs [k [A [_ [C [D [E [net0 G]]]]]]]].
  assert (R : exists reqs,
     fetched net1 = fetched net ++ reqs /\ (List.length reqs <= 3)%nat /\
     forall req, In req reqs -> prompt req = buildPrompt (vault app f)).
  { exists reqs. repeat split; [exact A | lia |].
    intros req I. destruct (E req I) as [key [_ Er]]. subst req. reflexivity. }
  destruct r as [summary | m]; intros H; inversion H; subst; (split; [exact R|]).
  - left. exists summary.
    destruct (queryGemini_fulfilled_data _ _ _ _ _ _ G)
      as [key [status [text [data [_ [_ [_ [_ Rd]]]]]]]].
    destruct (readData_fulfilled data summary Rd) as [S1 [S2 S3]].
    repeat split; auto.
  - right. exists m. split; reflexivity.
Qed.

Lemma remote_mode_appends_or_reports_witness :
  exists notices app' net',
    generateSummary
      (hostOf (Response 200 (Fulfilled []) (Fulfilled (answerOf (js "| a |")))))
      (keyed (js "k"))
      (mkApp (Some (mkView (Some 0%nat))) (fun _ => js "Awake at 7:30"))
      (mkNet [] []) = (notices, app', net') /\
    exists reqs,
      fetched net' = [] ++ reqs /\ (List.length reqs <= 3)%nat /\
      forall req, In req reqs -> prompt req = buildPrompt (js "Awake at 7:30").
Proof.
  eexists. eexists. eexists. split; [reflexivity|].
  eapply proj1.
  eapply (remote_mode_appends_or_reports
            (hostOf (Response 200 (Fulfilled []) (Fulfilled (answerOf (js "| a |")))))
            (keyed (js "k"))
            (mkApp (Some (mkView (Some 0%nat))) (fun _ => js "Awake at 7:30"))
            (mkNet [] []) 0%nat);
    [reflexivity | reflexivity | reflexivity | discriminate | reflexivity].
Defined.

(** ** Reading the answer *)

Lemma join_parts ts :
  join [] (map partText (map (fun t => JObject [(js "text", JString t)]) ts)) =
  List.concat ts.
Proof.
  induction ts as [|t ts IH]; [reflexivity|].
  destruct ts as [|u ts].
  - simpl. rewrite app_nil_r. reflexivity.
  - change (List.concat (t :: u :: ts)) with (t ++ List.concat (u :: ts)).
    rewrite <- IH. reflexivity.
Qed.

Lemma getField_last fields key v :
  getField (fields ++ [(key, v)]) key = Some v.
Proof.
  unfold getField. rewrite fold_left_app. cbn [fold_left fst snd].
  replace (str_eqb key key) with true; [reflexivity|].
  symmetry. apply str_eqb_eq. reflexivity.
Qed.

(** X16: from a body that holds parts with the texts t1, ..., tn and no
    block reason the query takes the texts put together, trimmed, and
    fails with Empty text result when nothing is left; a body whose prompt
    feedback gives a block reason is refused with Blocked: and the reason,
    whatever else it holds; a body without candidates or with an empty list
    of parts gives No content returned. *)
Theorem readData_answers :
  (forall ts,
     ts <> [] ->
     readData (answerParts ts) =
       if isEmpty (trim (List.concat ts)) then Rejected (js "Empty text result")
       else Fulfilled (trim (List.concat ts))) /\
  (forall fields reason,
     reason <> [] ->
     readData
       (JObject (fields ++
                 [(js "promptFeedback",
                   JObject [(js "blockReason", JString reason)])])) =
       Rejected (js "Blocked: " ++ reason)) /\
  readData (answerParts []) = Rejected (js "No content returned") /\
  readData (JObject []) = Rejected (js "No content returned") /\
  readData JNull = Rejected (js "No content returned").
Proof.
  split; [|split; [|repeat split; reflexivity]].
  - intros ts N. destruct ts as [|t ts]; [congruence|].
    assert (E : readData (answerParts (t :: ts)) =
                if isEmpty
                     (trim (join []
                        (map partText
                           (map (fun t => JObject [(js "text", JString t)])
                                (t :: ts)))))
                then Rejected (js "Empty text result")
                else Fulfilled
                       (trim (join []
                          (map partText
                             (map (fun t => JObject [(js "text", JString t)])
                                  (t :: ts))))))
      by reflexivity.
    rewrite E, join_parts. reflexivity.
  - intros fields reason N. unfold readData.
    cbn [optGet get]. rewrite getField_last. cbn [optGet get].
    change (getField [(js "blockReason", JString reason)] (js "blockReason"))
      with (Some (JString reason)).
    cbn [truthyJ toStringJ]. destruct reason; [congruence | reflexivity].
Qed.

Lemma readData_answers_witness :
  readData (answerParts [js "  | a |"; js " b |  "]) =
    Fulfilled (js "| a | b |") /\
  readData
    (JObject ([(js "candidates", JArray [])] ++
              [(js "promptFeedback",
                JObject [(js "blockReason", JString (js "SAFETY"))])])) =
    Rejected (js "Blocked: SAFETY").
Proof.
  split.
  - apply (proj1 readData_answers [js "  | a |"; js " b |  "]). discriminate.
  - apply (proj1 (proj2 readData_answers) [(js "candidates", JArray [])]
             (js "SAFETY")). discriminate.
Defined.

(** ** The test on the lowered line *)

(** X17: the test whether the lowered line includes till or to never
    decides anything: the range detection gives what it would give without
    the test, because a line that splits in two at till or to includes the
    word. *)
Theorem range_guard_never_decides (line time activity : list N) :
  detectRange line (toLowerCase line) time activity =
  match split re_tillTo line with
  | [part0; part1] =>
      if truthy (normalizeTime (match_timeRegex part0)) &&
         truthy (normalizeTime (match_timeRegex part1))
      then (orEmpty (normalizeTime (match_timeRegex part0)) ++ EN_DASH ++
            orEmpty (normalizeTime (match_timeRegex part1)),
            trim (replace_timeRegex part0))
      else (time, activity)
  | _ => (time, activity)
  end.
Proof.
  unfold detectRange.
  destruct (includes (toLowerCase line) (js "till") ||
            includes (toLowerCase line) (js "to")) eqn:G; [reflexivity|].
  destruct (split re_tillTo line) as [|part0 [|part1 [|]]] eqn:S;
    try reflexivity.
  rewrite (tillTo_guard_holds line part0 part1 S) in G. discriminate.
Qed.

(** * The table as a whole *)

(** ** The cells of a row *)

Lemma splitUnit_app u a : forall cur rest,
  ~ In u a ->
  splitUnit u (a ++ u :: rest) cur = (rev cur ++ a) :: splitUnit u rest [].
Proof.
  induction a as [|c a IH]; intros cur rest L; cbn [app splitUnit].
  - rewrite N.eqb_refl, app_nil_r. reflexivity.
  - replace (c =? u) with false.
    + rewrite IH.
      * simpl. rewrite <- app_assoc. reflexivity.
      * intros F. apply L. right. exact F.
    + symmetry. apply N.eqb_neq. intros F. apply L. left. exact F.
Qed.

Lemma cellBreaker_pipe c : cellBreaker c = false -> c <> 124.
Proof.
  unfold cellBreaker. intros H F. subst c. discriminate.
Qed.

Lemma cellBreaker_terminator c :
  cellBreaker c = false -> negb (isLineTerminator c) = true.
Proof.
  unfold cellBreaker. intros H. apply orb_false_iff in H.
  destruct H as [_ H]. rewrite H. reflexivity.
Qed.

Lemma padded_no_pipe t :
  (forall c, In c t -> cellBreaker c = false) -> ~ In 124 (js " " ++ t ++ js " ").
Proof.
  intros H F. simpl in F. destruct F as [F | F]; [discriminate|].
  apply in_app_or in F. destruct F as [F | [F | []]]; [|discriminate].
  apply H in F. discriminate.
Qed.

(** A row rendered from three cells without a pipe or a line terminator
    has exactly these three cells. *)
Lemma render_threeColumns t a n :
  (forall c, In c t -> cellBreaker c = false) ->
  (forall c, In c a -> cellBreaker c = false) ->
  (forall c, In c n -> cellBreaker c = false) ->
  threeColumns (js "| " ++ t ++ js " | " ++ a ++ js " | " ++ n ++ js " |") t a n.
Proof.
  intros Ht Ha Hn. split.
  - replace (js "| " ++ t ++ js " | " ++ a ++ js " | " ++ n ++ js " |")
      with ([] ++ 124 :: (js " " ++ t ++ js " ") ++
                  124 :: (js " " ++ a ++ js " ") ++
                  124 :: (js " " ++ n ++ js " ") ++ 124 :: [])
      by (simpl; rewrite <- !app_assoc; reflexivity).
    rewrite splitUnit_app by (simpl; tauto).
    rewrite !splitUnit_app by (apply padded_no_pipe; assumption).
    reflexivity.
  - apply forallb_forall. intros c I. simpl in I.
    destruct I as [I | [I | I]]; [subst c; reflexivity ..|].
    apply in_app_or in I. destruct I as [I | I];
      [apply cellBreaker_terminator; auto|].
    destruct I as [I | [I | [I | I]]]; [subst c; reflexivity ..|].
    apply in_app_or in I. destruct I as [I | I];
      [apply cellBreaker_terminator; auto|].
    destruct I as [I | [I | [I | I]]]; [subst c; reflexivity ..|].
    apply in_app_or in I. destruct I as [I | I];
      [apply cellBreaker_terminator; auto|].
    destruct I as [I | [I | []]]; subst c; reflexivity.
Qed.

Lemma isDigit_plain c : isDigit c = true -> cellBreaker c = false.
Proof.
  intros H. apply isDigit_In in H. unfold digitUnits in H. simpl in H.
  intuition (subst c; reflexivity).
Qed.

Lemma canonicalTime_plain t c :
  canonicalTime 87 99 t -> In c t -> cellBreaker c = false.
Proof.
  intros [h [mi [mer [E [_ [B R]]]]]] I. subst t.
  assert (Q : mi / 10 < 10) by (apply N.Div0.div_lt_upper_bound; lia).
  assert (W : mi mod 10 < 10) by (apply N.mod_lt; lia).
  apply in_app_or in I. destruct I as [I | I].
  - apply isDigit_plain. eapply digitsOfUint_digits. exact I.
  - destruct I as [I | I]; [subst c; reflexivity|].
    destruct I as [I | [I | I]].
    + apply isDigit_plain. subst c. revert Q. generalize (mi / 10).
      intros q Q. unfold isDigit, inRange.
      apply andb_true_iff. split; apply N.leb_le; lia.
    + apply isDigit_plain. subst c. revert W. generalize (mi mod 10).
      intros q W. unfold isDigit, inRange.
      apply andb_true_iff. split; apply N.leb_le; lia.
    + destruct I as [I | I]; [subst c; reflexivity|].
      destruct R; subst mer; simpl in I; intuition (subst c; reflexivity).
Qed.

Lemma plainLine_In line c :
  plainLine line = true -> In c line -> cellBreaker c = false.
Proof.
  unfold plainLine. intros H I. rewrite forallb_forall in H.
  apply H in I. apply negb_true_iff. exact I.
Qed.

(** The cells of the row of a plain line hold no pipe and no line
    terminator. *)
Lemma outcome_cells_plain line r :
  outcome line r -> plainLine line = true ->
  (forall c, In c (time r) -> cellBreaker c = false) /\
  (forall c, In c (activity r) -> cellBreaker c = false) /\
  (forall c, In c (notesCell r) -> cellBreaker c = false).
Proof.
  intros O P.
  assert (A : forall a, incl a line ->
              forall c, In c (orDash (cleanActivity a)) -> cellBreaker c = false).
  { intros a Ia c I. unfold orDash in I.
    destruct (isEmpty (cleanActivity a)).
    - destruct I as [I | []]. subst c. reflexivity.
    - apply cleanActivity_In in I. destruct I as [I | I]; [subst c; reflexivity|].
      eapply plainLine_In; [exact P | apply Ia; exact I]. }
  split; [|split].
  - destruct O as [part0 part1 ms me start end_ Hs H0 H1 N0 N1
                  | m t Hm Nt | Hm]; cbn [time]; intros c I.
    + apply in_app_or in I. destruct I as [I | I].
      * exact (canonicalTime_plain _ _ (match_canonical _ _ _ H0 N0) I).
      * destruct I as [I | I]; [subst c; reflexivity|].
        exact (canonicalTime_plain _ _ (match_canonical _ _ _ H1 N1) I).
    + exact (canonicalTime_plain _ _ (match_canonical _ _ _ Hm Nt) I).
    + destruct I as [I | []]. subst c. reflexivity.
  - destruct O as [part0 part1 ms me start end_ Hs H0 H1 N0 N1
                  | m t Hm Nt | Hm]; cbn [activity]; apply A.
    + eapply incl_tran; [apply trim_incl|].
      eapply incl_tran; [apply replace_timeRegex_incl|].
      apply split_incl with (re := re_tillTo). rewrite Hs. left. reflexivity.
    + eapply incl_tran; [apply trim_incl|].
      eapply incl_tran; [apply replace_atAroundBy_incl|].
      apply replaceString_incl.
    + apply workingText_incl.
  - unfold notesCell. rewrite (outcome_notes _ _ O). intros c I.
    destruct (isEmpty (notesOf line)).
    + destruct I as [I | []]. subst c. reflexivity.
    + eapply plainLine_In; [exact P | apply notesOf_incl; exact I].
Qed.

Lemma outcome_threeColumns line r :
  outcome line r -> plainLine line = true ->
  threeColumns (renderRow r) (time r) (activity r) (notesCell r).
Proof.
  intros O P. destruct (outcome_cells_plain line r O P) as [T [A N]].
  apply render_threeColumns; assumption.
Qed.

(** ** The lines of a document *)

Lemma isEmpty_trim l : isEmpty (trim l) = forallb isSpace l.
Proof.
  induction l as [|c l IH]; [reflexivity|].
  cbn [forallb]. destruct (isSpace c) eqn:E.
  - rewrite trim_cons_space by exact E. exact IH.
  - pose proof (trim_keeps (c :: l) c (or_introl eq_refl) E) as I.
    destruct (trim (c :: l)); [destruct I | reflexivity].
Qed.

Lemma linesOf_join_LF ls :
  Forall noLF ls ->
  linesOf (join [LF] ls) = filter (fun l => negb (isEmpty l)) (map trim ls).
Proof.
  intros F. destruct ls as [|x ls]; [reflexivity|].
  unfold linesOf. rewrite split_newline_go.
  destruct (pieces_LF (x :: ls) None) as [ps [E H]]; [discriminate | exact F |].
  rewrite E, (map_trim_pieces _ _ H). reflexivity.
Qed.

Lemma linesOf_join_CRLF ls :
  Forall noLF ls ->
  linesOf (join [13; LF] ls) = filter (fun l => negb (isEmpty l)) (map trim ls).
Proof.
  intros F. destruct ls as [|x ls]; [reflexivity|].
  unfold linesOf. rewrite split_newline_go.
  rewrite pieces_CRLF by (discriminate || exact F). reflexivity.
Qed.

Lemma nonBlank_lines ls :
  List.length (filter (fun l => negb (isEmpty l)) (map trim ls)) =
  List.length (filter nonBlank ls).
Proof.
  rewrite filter_map_length. f_equal. apply filter_ext.
  intros l. unfold nonBlank. rewrite isEmpty_trim. reflexivity.
Qed.

Lemma splitLF_nonempty s : forall cur, splitLF s cur <> [].
Proof.
  induction s as [|c s IH]; intros cur; cbn [splitLF]; [discriminate|].
  destruct (c =? LF); [discriminate | apply IH].
Qed.

(** Every string is its LF-free pieces joined by LF. *)
Lemma join_splitLF s : forall cur,
  noLF cur ->
  join [LF] (splitLF s cur) = rev cur ++ s /\ Forall noLF (splitLF s cur).
Proof.
  induction s as [|c s IH]; intros cur L; cbn [splitLF].
  - split; [simpl; rewrite app_nil_r; reflexivity|].
    constructor; [|constructor]. eapply noLF_incl; [apply rev_incl | exact L].
  - destruct (c =? LF) eqn:E.
    + apply N.eqb_eq in E. subst c.
      destruct (IH [] (fun F => F)) as [J A].
      split.
      * pose proof (splitLF_nonempty s []) as N.
        destruct (splitLF s []) as [|y r]; [congruence|].
        change (join [LF] (rev cur :: y :: r))
          with (rev cur ++ LF :: join [LF] (y :: r)).
        rewrite J. reflexivity.
      * constructor; [|exact A].
        eapply noLF_incl; [apply rev_incl | exact L].
    + apply N.eqb_neq in E.
      destruct (IH (c :: cur)) as [J A].
      * intros [F | F]; [congruence | exact (L F)].
      * split; [|exact A]. rewrite J. simpl. rewrite <- app_assoc. reflexivity.
Qed.

(** ** The table of a document *)

Lemma table_lines rows :
  Forall filledRow rows ->
  firstn 2 (tableLines (header ++ [LF] ++ sep ++ [LF] ++
                        join [LF] (map renderRow rows))) = [header; sep] /\
  bodyRows (header ++ [LF] ++ sep ++ [LF] ++ join [LF] (map renderRow rows)) =
    map renderRow rows.
Proof.
  intros W. unfold bodyRows.
  rewrite tableLines_table by (apply rendered_noLF; exact W).
  split; [reflexivity|]. cbn [skipn].
  destruct rows as [|r rows]; [reflexivity|].
  change (match map renderRow (r :: rows) with
          | [] => [[]]
          | _ :: _ => map renderRow (r :: rows)
          end) with (map renderRow (r :: rows)).
  apply filter_rendered.
Qed.

Lemma rows_of_lines lines rows :
  Forall noLF lines -> Forall2 outcome lines rows ->
  Forall2
    (fun line r =>
       outcome line r /\ filledRow r /\
       renderRow r =
         js "| " ++ time r ++ js " | " ++ activity r ++ js " | " ++
         notesCell r ++ js " |" /\
       (plainLine line = true ->
        threeColumns (renderRow r) (time r) (activity r) (notesCell r)))
    lines rows.
Proof.
  intros L F. induction F as [|line r lines rows O F IH];
    [constructor|].
  inversion L as [|? ? L1 L2]; subst.
  constructor; [|exact (IH L2)].
  split; [exact O|].
  split; [exact (outcome_filledRow line r L1 O)|].
  split; [reflexivity|].
  intros P. exact (outcome_threeColumns line r O P).
Qed.

Lemma localFormatToTable_lines c1 c2 :
  linesOf c1 = linesOf c2 -> localFormatToTable c1 = localFormatToTable c2.
Proof.
  intros E. unfold localFormatToTable. rewrite E. reflexivity.
Qed.

Lemma plainLine_noLF l : plainLine l = true -> noLF l.
Proof.
  intros P I. pose proof (plainLine_In l LF P I) as C. discriminate C.
Qed.

Lemma plainLine_trim l : plainLine l = true -> plainLine (trim l) = true.
Proof.
  unfold plainLine. rewrite !forallb_forall. intros H c I.
  apply H, (trim_incl l), I.
Qed.

Lemma plain_lines_noLF ls : forallb plainLine ls = true -> Forall noLF ls.
Proof.
  rewrite forallb_forall. intros H. apply Forall_forall. intros l I.
  apply plainLine_noLF, H, I.
Qed.

Lemma plain_lines_kept ls :
  forallb plainLine ls = true ->
  Forall (fun l => plainLine l = true)
         (filter (fun l => negb (isEmpty l)) (map trim ls)).
Proof.
  rewrite forallb_forall. intros H. apply Forall_forall. intros l I.
  apply filter_In in I. destruct I as [I _].
  apply in_map_iff in I. destruct I as [x [E I]]. subst l.
  apply plainLine_trim, H, I.
Qed.

(** The rows of plain lines are rows of three columns. *)
Lemma rows_threeColumnRow lines rows :
  Forall (fun l => plainLine l = true) lines -> Forall noLF lines ->
  Forall2 outcome lines rows ->
  Forall threeColumnRow (map renderRow rows).
Proof.
  intros P L F. induction F as [|line r lines rows O F IH];
    [constructor|].
  inversion P as [|? ? P1 P2]; subst. inversion L as [|? ? L1 L2]; subst.
  cbn [map]. constructor; [|exact (IH P2 L2)].
  destruct (outcome_filledRow line r L1 O) as [T [A [N _]]].
  exists (time r), (activity r), (notesCell r).
  split; [exact T|]. split; [exact A|]. split; [exact N|].
  exact (outcome_threeColumns line r O P1).
Qed.

Lemma filter_map_trim ls :
  filter (fun l => negb (isEmpty l)) (map trim ls) =
  map trim (filter nonBlank ls).
Proof.
  induction ls as [|l ls IH]; [reflexivity|].
  cbn [map filter]. unfold nonBlank at 1. rewrite isEmpty_trim.
  destruct (forallb isSpace l); cbn [negb map]; rewrite IH; reflexivity.
Qed.

(** The table of the document made of given lines, joined by LF or by
    CR LF: its body rows are the rows of the given lines that are not blank,
    trimmed, in their order. *)
Lemma given_lines ls :
  Forall noLF ls ->
  exists rows,
    localFormatToTable (join [LF] ls) =
      Ok (header ++ [LF] ++ sep ++ [LF] ++ join [LF] (map renderRow rows)) /\
    localFormatToTable (join [13; LF] ls) =
      Ok (header ++ [LF] ++ sep ++ [LF] ++ join [LF] (map renderRow rows)) /\
    Forall2 outcome (map trim (filter nonBlank ls)) rows /\
    Forall filledRow rows /\
    firstn 2 (tableLines (header ++ [LF] ++ sep ++ [LF] ++
                          join [LF] (map renderRow rows))) = [header; sep] /\
    bodyRows (header ++ [LF] ++ sep ++ [LF] ++
              join [LF] (map renderRow rows)) = map renderRow rows.
Proof.
  intros L.
  destruct (localFormatToTable_spec (join [LF] ls)) as [rows [E [F W]]].
  exists rows. split; [exact E|]. split.
  - rewrite (localFormatToTable_lines (join [13; LF] ls) (join [LF] ls));
      [exact E|].
    rewrite linesOf_join_LF, linesOf_join_CRLF by exact L. reflexivity.
  - split.
    + rewrite linesOf_join_LF, filter_map_trim in F by exact L. exact F.
    + split; [exact W|]. exact (table_lines rows W).
Qed.

Lemma trimmed_lines_plain ls :
  forallb plainLine ls = true ->
  Forall (fun l => plainLine l = true) (map trim (filter nonBlank ls)).
Proof.
  intros P. rewrite <- filter_map_trim. apply plain_lines_kept, P.
Qed.

Lemma trimmed_lines_noLF ls :
  Forall noLF ls -> Forall noLF (map trim (filter nonBlank ls)).
Proof.
  intros L. rewrite Forall_forall in L. apply Forall_forall. intros l I.
  apply in_map_iff in I. destruct I as [x [E I]]. subst l.
  apply filter_In in I. destruct I as [I _].
  eapply noLF_incl; [apply trim_incl | exact (L x I)].
Qed.

(** A document of plain lines, joined by LF or by CR LF, gets a table of
    three columns whose body rows are the rows of its lines that are not
    blank. *)
Lemma plain_document ls :
  forallb plainLine ls = true ->
  exists out rows,
    localFormatToTable (join [LF] ls) = Ok out /\
    localFormatToTable (join [13; LF] ls) = Ok out /\
    wellFormedTable out /\
    bodyRows out = map renderRow rows /\
    Forall2 outcome (map trim (filter nonBlank ls)) rows.
Proof.
  intros P. pose proof (plain_lines_noLF ls P) as L.
  destruct (given_lines ls L) as [rows [E1 [E2 [F [W [H1 H2]]]]]].
  eexists. exists rows. split; [exact E1|]. split; [exact E2|].
  split; [|split; [exact H2 | exact F]].
  split; [exact H1|]. rewrite H2.
  apply (rows_threeColumnRow (map trim (filter nonBlank ls))).
  - apply trimmed_lines_plain, P.
  - apply trimmed_lines_noLF, L.
  - exact F.
Qed.

(** What the table of any document is, read back line by line. *)
Lemma any_document content :
  exists rows,
    localFormatToTable content =
      Ok (header ++ [LF] ++ sep ++ [LF] ++ join [LF] (map renderRow rows)) /\
    tableLines (header ++ [LF] ++ sep ++ [LF] ++
                join [LF] (map renderRow rows)) =
      header :: sep ::
      match rows with [] => [[]] | _ :: _ => map renderRow rows end /\
    Forall2
      (fun line r =>
         outcome line r /\ filledRow r /\
         renderRow r =
           js "| " ++ time r ++ js " | " ++ activity r ++ js " | " ++
           notesCell r ++ js " |" /\
         (plainLine line = true ->
          threeColumns (renderRow r) (time r) (activity r) (notesCell r)))
      (linesOf content) rows.
Proof.
  destruct (localFormatToTable_spec content) as [rows [E [F W]]].
  exists rows. split; [exact E|]. split.
  - rewrite tableLines_table by (apply rendered_noLF; exact W).
    destruct rows; reflexivity.
  - apply rows_of_lines; [apply linesOf_noLF | exact F].
Qed.

(** C1 (as amended): for every input string the local formatter returns a
    table and never throws.  The table is the header line, the separator
    line and one line per non-blank input line, each of the form
    pipe, time, pipe, activity, pipe, notes, pipe with three cells that are
    not empty (an em dash for a missing time, Untitled for an empty
    activity, a hyphen for missing notes) and without a line feed.  A row is
    a row of exactly three columns whenever its line holds no pipe and no
    line terminator (CR, U+2028, U+2029); so a document whose lines are all
    such, joined by LF or by CR LF, gets a well-formed three-column table
    whose body rows are the rows of its lines that are not blank, trimmed,
    in their order.
    The text of a cell is copied from the line as it is: nothing is
    escaped.  The header and the separator are themselves of three
    columns. *)
Theorem localFormatToTable_total_wellformed :
  (forall content, exists rows,
      localFormatToTable content =
        Ok (header ++ [LF] ++ sep ++ [LF] ++ join [LF] (map renderRow rows)) /\
      tableLines (header ++ [LF] ++ sep ++ [LF] ++
                  join [LF] (map renderRow rows)) =
        header :: sep ::
        match rows with [] => [[]] | _ :: _ => map renderRow rows end /\
      Forall2
        (fun line r =>
           outcome line r /\ filledRow r /\
           renderRow r =
             js "| " ++ time r ++ js " | " ++ activity r ++ js " | " ++
             notesCell r ++ js " |" /\
           (plainLine line = true ->
            threeColumns (renderRow r) (time r) (activity r) (notesCell r)))
        (linesOf content) rows) /\
  (forall ls, forallb plainLine ls = true ->
     exists out rows,
       localFormatToTable (join [LF] ls) = Ok out /\
       localFormatToTable (join [13; LF] ls) = Ok out /\
       wellFormedTable out /\
       bodyRows out = map renderRow rows /\
       Forall2 outcome (map trim (filter nonBlank ls)) rows) /\
  splitUnit 124 header [] =
    [[]; js " Time "; js " Activity "; js " Notes "; []] /\
  splitUnit 124 sep [] = [[]; js "---"; js "---"; js "---"; []].
Proof.
  split; [exact any_document|].
  split; [exact plain_document|].
  split; reflexivity.
Qed.

Lemma localFormatToTable_total_wellformed_witness :
  forallb plainLine [js "Awake at 7:30 [slow]"; js "  "; js "((x"] = true /\
  exists out,
    localFormatToTable
      (join [LF] [js "Awake at 7:30 [slow]"; js "  "; js "((x"]) = Ok out /\
    wellFormedTable out /\
    bodyRows out =
      [js "| 7:30 AM | Awake [slow] | slow |";
       js "| " ++ EM_DASH ++ js " | ((x | - |"].
Proof.
  split; [reflexivity|].
  destruct (proj1 (proj2 localFormatToTable_total_wellformed)
                  [js "Awake at 7:30 [slow]"; js "  "; js "((x"] eq_refl)
    as [out [rows [E [_ [W _]]]]].
  exists out. split; [exact E|]. split; [exact W|].
  assert (O : Ok out =
              localFormatToTable
                (join [LF] [js "Awake at 7:30 [slow]"; js "  "; js "((x"]))
    by (symmetry; exact E).
  vm_compute in O. injection O as O. rewrite O. reflexivity.
Defined.

(** C1 as stated fails: the line a | b gets a row that a pipe cuts into
    four cells. *)
Lemma pipe_line_four_cells :
  ~ (forall content, exists out,
        localFormatToTable content = Ok out /\ wellFormedTable out).
Proof.
  intros H. destruct (H (js "a | b")) as [out [E [_ W]]].
  vm_compute in E. injection E as E.
  assert (B : bodyRows out = [js "| " ++ EM_DASH ++ js " | a | b | - |"])
    by (rewrite <- E; reflexivity).
  rewrite B in W. clear B E.
  inversion W as [|? ? T _]. subst.
  destruct T as [t [a [n [_ [_ [_ [S _]]]]]]].
  vm_compute in S. discriminate S.
Qed.

(** ** The number of body rows *)

(** Every string is made of lines without a line feed, joined by LF. *)
Lemma content_is_lines content :
  exists ls, Forall noLF ls /\ content = join [LF] ls.
Proof.
  destruct (join_splitLF content [] (fun F => F)) as [J A].
  exists (splitLF content []). split; [exact A | symmetry; exact J].
Qed.

Lemma table_count content :
  exists out,
    localFormatToTable content = Ok out /\
    firstn 2 (tableLines out) = [header; sep] /\
    List.length (bodyRows out) = countNonBlank content /\
    (countNonBlank content = 0%nat -> out = header ++ [LF] ++ sep ++ [LF]).
Proof.
  destruct (localFormatToTable_spec content) as [rows [E [F W]]].
  eexists. split; [exact E|].
  pose proof (Forall2_length F) as Len. rewrite linesOf_length in Len.
  destruct (table_lines rows W) as [H1 H2].
  split; [exact H1|]. split.
  - rewrite H2, length_map. symmetry. exact Len.
  - intros Z. rewrite Z in Len. destruct rows; [reflexivity | discriminate].
Qed.

(** C2: the table has as many body rows as the input has lines that are
    not blank.  Said of the lines themselves: for the document made of any
    given lines (none holding a line feed) joined by LF, and just the same
    joined by CR LF, the table starts with the header line and the separator
    line, its body rows are the rows of the given lines that are not all
    white space, each trimmed, in their order, and so they are as many as
    those lines; when every given line is blank the table is the header line
    and the separator line only.  Every input string is such a document; and
    for every input string the body rows are as many as the pieces of
    [split(/\r?\n/)] that are not empty once trimmed. *)
Theorem body_rows_count :
  (forall ls, Forall noLF ls ->
     exists out rows,
       localFormatToTable (join [LF] ls) = Ok out /\
       localFormatToTable (join [13; LF] ls) = Ok out /\
       firstn 2 (tableLines out) = [header; sep] /\
       bodyRows out = map renderRow rows /\
       Forall2 outcome (map trim (filter nonBlank ls)) rows /\
       List.length (bodyRows out) = List.length (filter nonBlank ls) /\
       (filter nonBlank ls = [] -> out = header ++ [LF] ++ sep ++ [LF])) /\
  (forall content, exists ls, Forall noLF ls /\ content = join [LF] ls) /\
  (forall content, exists out,
     localFormatToTable content = Ok out /\
     firstn 2 (tableLines out) = [header; sep] /\
     List.length (bodyRows out) = countNonBlank content /\
     (countNonBlank content = 0%nat -> out = header ++ [LF] ++ sep ++ [LF])).
Proof.
  split; [|split; [exact content_is_lines | exact table_count]].
  intros ls L.
  destruct (given_lines ls L) as [rows [E1 [E2 [F [W [H1 H2]]]]]].
  eexists. exists rows.
  split; [exact E1|]. split; [exact E2|]. split; [exact H1|].
  split; [exact H2|]. split; [exact F|].
  pose proof (Forall2_length F) as Len. rewrite length_map in Len.
  split.
  - rewrite H2, length_map. symmetry. exact Len.
  - intros Z. rewrite Z in Len. destruct rows; [reflexivity | discriminate].
Qed.

Lemma body_rows_count_witness :
  Forall noLF [js "Awake at 7:30"; js "   "; js ""; js "Gym | legs"] /\
  Forall noLF [js " "; js ""] /\
  (exists out,
     localFormatToTable
       (join [LF] [js "Awake at 7:30"; js "   "; js ""; js "Gym | legs"]) =
       Ok out /\
     List.length (bodyRows out) = 2%nat) /\
  localFormatToTable (join [13; LF] [js " "; js ""]) =
    Ok (header ++ [LF] ++ sep ++ [LF]).
Proof.
  assert (L1 : Forall noLF
                 [js "Awake at 7:30"; js "   "; js ""; js "Gym | legs"])
    by (repeat constructor; apply noLF_check; reflexivity).
  assert (L2 : Forall noLF [js " "; js ""])
    by (repeat constructor; apply noLF_check; reflexivity).
  split; [exact L1|]. split; [exact L2|]. split.
  - destruct (proj1 body_rows_count _ L1)
      as [out [rows [E [_ [_ [_ [_ [C _]]]]]]]].
    exists out. split; [exact E | exact C].
  - destruct (proj1 body_rows_count _ L2)
      as [out [rows [_ [E [_ [_ [_ [_ Z]]]]]]]].
    rewrite E, (Z eq_refl). reflexivity.
Defined.
